(** * bmcweb [include/dbus_utility.hpp]: the object-mapper query layer

    A shallow embedding of namespace [dbus::utility]: the two path helpers
    ([escapePathForDbus], [getNthStringFromPath]), the four object-mapper
    requests and the two-stage association pipeline
    ([getAssociatedSubTreePaths]).

    [std::string] is [string] (a sequence of 8-bit characters), a
    [std::vector] is a [list], [std::set<std::string>] is [gset string],
    and a function that hands its result to a completion handler is written
    in continuation-passing style over the type [Task] of pending bus
    requests. *)

From Stdlib Require Import ZArith Ascii String List Sorted Permutation.
From stdpp Require Import base decidable list strings gmap sorting.

Local Open Scope Z_scope.
Local Open Scope string_scope.
Local Open Scope list_scope.

(** ** The pieces of the C++ standard library the header calls *)

Module std.

(** *** [std::regex_replace] with the pattern of [escapePathForDbus] *)

(** The bracket expression [A-Za-z0-9_/], on the character code. *)
Definition in_bracket (c : ascii) : bool :=
  let n := nat_of_ascii c in
  ((65 <=? n) && (n <=? 90) || (97 <=? n) && (n <=? 122)
   || (48 <=? n) && (n <=? 57) || (n =? 95) || (n =? 47))%nat.

(** [const std::regex reg("[^A-Za-z0-9_/]")]: a match is one character
    outside the bracket expression. *)
Definition reg (c : ascii) : bool := negb (in_bracket c).

(** Offset of the first match in [l], as [std::regex_search] finds it. *)
Fixpoint first_match (l : list ascii) : option nat :=
  match l with
  | [] => None
  | c :: l' => if reg c then Some 0%nat else S <$> first_match l'
  end.

(** [regex_search] on the range [[pos, end)] of the buffer: the index of
    the next match. *)
Definition regex_search (buf : list ascii) (pos : nat) : option nat :=
  (λ k, (pos + k)%nat) <$> first_match (drop pos buf).

(** [std::copy(first, first + n, out)] where source and destination are
    iterators into the same buffer: elements are read and written one by
    one, front to back.  Returns the buffer and the advanced [out]. *)
Fixpoint copy (buf : list ascii) (first n out : nat) : list ascii * nat :=
  match n with
  | O => (buf, out)
  | S n' =>
      match buf !! first with
      | Some c => copy (<[out := c]> buf) (S first) n' (S out)
      | None => (buf, out)
      end
  end.

(** The loop of [regex_replace(out, first, last, reg, "_")] over the
    matches of a [regex_iterator]; [pos] is where the next search starts
    (the end of the previous match).  Every round copies the unmatched
    prefix to [out], then writes the format string ["_"] there; when no
    match is left the rest of the range is copied.  Each round consumes
    at least the matched character, so [fuel] rounds with [fuel] above
    the number of characters left always reach the final copy. *)
Fixpoint regex_replace_from (fuel : nat) (buf : list ascii) (out pos : nat)
  : list ascii :=
  match fuel with
  | O => buf
  | S fuel' =>
      match regex_search buf pos with
      | None => (copy buf pos (length buf - pos) out).1
      | Some i =>
          let '(buf1, out1) := copy buf pos (i - pos) out in
          let buf2 := <[out1 := "_"%char]> buf1 in
          regex_replace_from fuel' buf2 (S out1) (S i)
      end
  end.

(** [std::regex_replace(out, first, last, reg, "_")] where [first] is the
    begin of the buffer, [last] its end, and [out] an iterator into the
    same buffer at index [out]. *)
Definition regex_replace (buf : list ascii) (out : nat) : list ascii :=
  regex_replace_from (S (length buf)) buf out 0.

(** *** [std::filesystem::path] in the generic (POSIX) format *)

(** The directory separator. *)
Definition is_separator (c : ascii) : bool := Ascii.eqb c "/"%char.

(** Where the path parser stands: before any filename, inside a filename
    (with the characters read so far), or after the separators that
    follow a filename. *)
Inductive cursor : Type :=
| AtStart
| InName (name : string)
| AfterSep.

(** The filename elements of a path, in traversal order: runs of
    separators count once, and separators after the last filename give a
    final empty element. *)
Fixpoint elements_from (cur : cursor) (s : string) : list string :=
  match s with
  | EmptyString =>
      match cur with
      | AtStart => []
      | InName name => [name]
      | AfterSep => [""]
      end
  | String c s' =>
      if is_separator c then
        match cur with
        | AtStart => elements_from AtStart s'
        | InName name => name :: elements_from AfterSep s'
        | AfterSep => elements_from AfterSep s'
        end
      else
        match cur with
        | InName name => elements_from (InName (name +:+ String c "")) s'
        | _ => elements_from (InName (String c "")) s'
        end
  end.

(** [path::begin() .. path::end()]: the root directory, when the path
    starts with a separator, then the filename elements.  (There is no
    root name in the POSIX format.) *)
Definition path_elements (p : string) : list string :=
  match p with
  | String c _ => if is_separator c then ["/"] else []
  | EmptyString => []
  end ++ elements_from AtStart p.

(** [path::relative_path()]: the path without its root directory. *)
Fixpoint relative_path (p : string) : string :=
  match p with
  | String c p' => if is_separator c then relative_path p' else p
  | EmptyString => ""
  end.

(** [path::filename()]:
    [relative_path().empty() ? path() : *--end()]. *)
Definition filename (p : string) : string :=
  match relative_path p with
  | EmptyString => ""
  | _ => List.last (path_elements p) ""
  end.

(** [path::has_filename()]: [!filename().empty()]. *)
Definition has_filename (p : string) : bool :=
  match filename p with
  | EmptyString => false
  | _ => true
  end.

(** [s.rfind(c)]: the index of the last [c] in [s]. *)
Fixpoint rfind (c : ascii) (s : string) : option nat :=
  match s with
  | EmptyString => None
  | String a s' =>
      match rfind c s' with
      | Some i => Some (S i)
      | None => if Ascii.eqb a c then Some 0%nat else None
      end
  end.

(** The stem of a filename [f]: [f] itself when it is ["."] or [".."] or
    has no period besides a leading one, else [f] up to its last
    period. *)
Definition stem_of_filename (f : string) : string :=
  if bool_decide (f = "." ∨ f = "..") then f
  else
    match rfind "."%char f with
    | Some (S pos) => String.substring 0 (S pos) f
    | _ => f
    end.

(** [path::stem()]. *)
Definition stem (p : string) : string := stem_of_filename (filename p).

(** *** [std::string] comparison and [std::sort] *)

(** [operator<] on [std::string]: lexicographic on the characters as
    unsigned bytes, a proper prefix being smaller. *)
Definition string_lt (s1 s2 : string) : Prop := String.ltb s1 s2 = true.

(** [std::sort(first, last)] on a vector of strings.  The algorithm is
    left open by the standard; its result is the arrangement of the
    range in non-descending order, which is unique for strings (lemma
    [sort_unique]).  It is computed here by a merge sort. *)
Definition sort (v : list string) : list string := merge_sort String.le v.

End std.

(** ** The bus connection, as the header uses it *)

Module sdbusplus.

(** [boost::system::error_code]: the numeric value, [0] for success. *)
Definition error_code : Type := Z.

(** [if (ec)]: the code reports a failure. *)
Definition failed (ec : error_code) : bool := negb (ec =? 0)%Z.

(** The reply types the handlers of this header unpack, by D-Bus
    signature: [as], [a(sas)] and [a(sa(sas))]. *)
Inductive signature : Type :=
| sig_as
| sig_a_sas
| sig_a_s_a_sas.

Definition unpacked (sig : signature) : Type :=
  match sig with
  | sig_as => list string
  | sig_a_sas => list (string * list string)
  | sig_a_s_a_sas => list (string * list (string * list string))
  end.

(** The arguments sent with a method call: a string, an [int32_t], an
    array of strings. *)
Inductive arg : Type :=
| arg_s (s : string)
| arg_i (i : Z)
| arg_as (a : list string).

(** What goes on the bus. *)
Inductive request : Type :=
| method_call (service path interface method : string) (args : list arg)
| property_get (service path interface property : string).

(** An asynchronous computation whose outcome is handed to the caller's
    callback: either the callback has been called with [r], or one
    request is on the bus and [handler] runs when its reply arrives. *)
Inductive Task (R : Type) : Type :=
| Called (r : R)
| Pending (sig : signature) (req : request)
    (handler : error_code → unpacked sig → Task R).
Arguments Called {R} r.
Arguments Pending {R} sig req handler.

(** [systemBus->async_method_call(handler, service, path, interface,
    method, args...)]. *)
Definition async_method_call {R} (sig : signature)
    (handler : error_code → unpacked sig → Task R)
    (service path interface method : string) (args : list arg) : Task R :=
  Pending sig (method_call service path interface method args) handler.

(** [sdbusplus::asio::getProperty<T>(bus, service, path, interface,
    property, handler)]. *)
Definition getProperty {R} (sig : signature)
    (service path interface property : string)
    (handler : error_code → unpacked sig → Task R) : Task R :=
  Pending sig (property_get service path interface property) handler.

(** What an observer of the connection sees. *)
Inductive event : Type :=
| Issue (req : request)
| Reply (req : request) (ec : error_code) (sig : signature)
    (value : unpacked sig).

(** Every execution of a task: each pending request is issued, any reply
    may arrive, the handler runs once on it and continues from there. *)
Inductive exec {R} : Task R → list event → R → Prop :=
| exec_called r : exec (Called r) [] r
| exec_pending sig req handler ec value trace r :
    exec (handler ec value) trace r →
    exec (Pending sig req handler)
      (Issue req :: Reply req ec sig value :: trace) r.

(** A bus in a fixed state: the reply it gives to each request. *)
Definition Bus : Type := ∀ sig, request → error_code * unpacked sig.

(** Running a task against such a bus: the events and the value the
    callback is called with. *)
Fixpoint run {R} (bus : Bus) (task : Task R) : list event * R :=
  match task with
  | Called r => ([], r)
  | Pending sig req handler =>
      let '(ec, value) := bus sig req in
      let '(trace, r) := run bus (handler ec value) in
      (Issue req :: Reply req ec sig value :: trace, r)
  end.

(** The request a task has put on the bus, if it is waiting for one. *)
Definition pending_request {R} (task : Task R) : option request :=
  match task with
  | Called _ => None
  | Pending _ req _ => Some req
  end.

End sdbusplus.

Import sdbusplus.

(** ** [dbus::utility] *)

Definition MapperServiceMap : Type := list (string * list string).
Definition MapperGetSubTreeResponse : Type := list (string * MapperServiceMap).
Definition MapperGetSubTreePathsResponse : Type := list string.
Definition MapperGetObject : Type := list (string * list string).
Definition MapperEndPoints : Type := list string.

(** [escapePathForDbus(std::string& path)]: the output iterator is
    [path.begin()], the input range is [[path.begin(), path.end())]; the
    function returns nothing, the value below is [path] after the call. *)
Definition escapePathForDbus (path : string) : string :=
  string_of_list_ascii (std.regex_replace (list_ascii_of_string path) 0).

(** The loop of [getNthStringFromPath] over the elements of [p1], from the
    current [count] and [result]; a [break] ends the traversal.  The [int]
    counter is an integer here: it stays between [-1] and [index] (lemma
    [nth_loop_count_le]), so [++count] never leaves the range of [int]. *)
Fixpoint nth_loop (index : Z) (elements : list string) (count : Z)
    (result : string) : Z * string :=
  match elements with
  | [] => (count, result)
  | element :: rest =>
      if std.has_filename element then
        let count := count + 1 in
        if (count =? index)%Z then (count, std.stem element)
        else nth_loop index rest count result
      else nth_loop index rest count result
  end.

(** [getNthStringFromPath(path, index, result)]: the returned flag and the
    value of the reference parameter [result] after the call. *)
Definition getNthStringFromPath (path : string) (index : Z) (result : string)
  : bool * string :=
  if (index <? 0)%Z then (false, result)
  else
    let p1 := std.path_elements path in
    let '(count, result) := nth_loop index p1 (-1) result in
    if (count <? index)%Z then (false, result) else (true, result).

(** [checkDbusPathExists(path, callback)]. *)
Definition checkDbusPathExists {R} (path : string) (callback : bool → Task R)
  : Task R :=
  async_method_call sig_a_sas
    (λ ec (objectNames : MapperGetObject),
       callback (negb (failed ec) && negb (length objectNames =? 0)%nat))
    "xyz.openbmc_project.ObjectMapper"
    "/xyz/openbmc_project/object_mapper"
    "xyz.openbmc_project.ObjectMapper" "GetObject"
    [arg_s path; arg_as []].

(** [getSubTree(path, depth, interfaces, callback)]. *)
Definition getSubTree {R} (path : string) (depth : Z)
    (interfaces : list string)
    (callback : error_code → MapperGetSubTreeResponse → Task R) : Task R :=
  async_method_call sig_a_s_a_sas
    (λ ec (subtree : MapperGetSubTreeResponse), callback ec subtree)
    "xyz.openbmc_project.ObjectMapper"
    "/xyz/openbmc_project/object_mapper"
    "xyz.openbmc_project.ObjectMapper" "GetSubTree"
    [arg_s path; arg_i depth; arg_as interfaces].

(** [getSubTreePaths(path, depth, interfaces, callback)]. *)
Definition getSubTreePaths {R} (path : string) (depth : Z)
    (interfaces : list string)
    (callback : error_code → MapperGetSubTreePathsResponse → Task R)
  : Task R :=
  async_method_call sig_as
    (λ ec (subtreePaths : MapperGetSubTreePathsResponse),
       callback ec subtreePaths)
    "xyz.openbmc_project.ObjectMapper"
    "/xyz/openbmc_project/object_mapper"
    "xyz.openbmc_project.ObjectMapper" "GetSubTreePaths"
    [arg_s path; arg_i depth; arg_as interfaces].

(** [getAssociationEndPoints(path, callback)]. *)
Definition getAssociationEndPoints {R} (path : string)
    (callback : error_code → MapperEndPoints → Task R) : Task R :=
  getProperty sig_as
    "xyz.openbmc_project.ObjectMapper" path
    "xyz.openbmc_project.Association" "endpoints"
    (λ ec (endpoints : MapperEndPoints), callback ec endpoints).

(** The [for] loop of [validateAssociatedSubTreePaths]: every subtree path
    found in [endpointSet] is appended to [associatedSubtreePaths]. *)
Definition collectAssociated (endpointSet : gset string)
    (subtreePaths associatedSubtreePaths : list string) : list string :=
  foldl
    (λ associatedSubtreePaths objectPath,
       if bool_decide (objectPath ∈ endpointSet)
       then associatedSubtreePaths ++ [objectPath]
       else associatedSubtreePaths)
    associatedSubtreePaths subtreePaths.

(** [validateAssociatedSubTreePaths(associatedPath, endpoints, path, depth,
    interfaces, callback)]. *)
Definition validateAssociatedSubTreePaths {R} (associatedPath : string)
    (endpoints : MapperEndPoints) (path : string) (depth : Z)
    (interfaces : list string)
    (callback : error_code → MapperGetSubTreePathsResponse → Task R)
  : Task R :=
  getSubTreePaths path depth interfaces
    (λ ec subtreePaths,
       let associatedSubtreePaths : MapperGetSubTreePathsResponse := [] in
       if failed ec || bool_decide (subtreePaths = [])
       then callback ec associatedSubtreePaths
       else
         let endpointSet : gset string := list_to_set endpoints in
         let associatedSubtreePaths :=
           collectAssociated endpointSet subtreePaths associatedSubtreePaths in
         let associatedSubtreePaths := std.sort associatedSubtreePaths in
         callback ec associatedSubtreePaths).

(** [getAssociatedSubTreePaths(associatedPath, path, depth, interfaces,
    callback)]. *)
Definition getAssociatedSubTreePaths {R} (associatedPath path : string)
    (depth : Z) (interfaces : list string)
    (callback : error_code → MapperGetSubTreePathsResponse → Task R)
  : Task R :=
  getAssociationEndPoints associatedPath
    (λ ec endpoints,
       if failed ec || bool_decide (endpoints = [])
       then
         let subtreePaths : MapperGetSubTreePathsResponse := [] in
         callback ec subtreePaths
       else
         validateAssociatedSubTreePaths associatedPath endpoints path depth
           interfaces (λ ec subtreePaths, callback ec subtreePaths)).

(** ** Callers, requests and buses of the statements *)

(** A caller that only records what its callback receives. *)
Definition deliver (ec : error_code) (paths : MapperGetSubTreePathsResponse)
  : Task (error_code * MapperGetSubTreePathsResponse) :=
  Called (ec, paths).

(** The two requests of the pipeline. *)
Definition endpointsRequest (associatedPath : string) : request :=
  property_get "xyz.openbmc_project.ObjectMapper" associatedPath
    "xyz.openbmc_project.Association" "endpoints".

Definition subTreePathsRequest (path : string) (depth : Z)
    (interfaces : list string) : request :=
  method_call "xyz.openbmc_project.ObjectMapper"
    "/xyz/openbmc_project/object_mapper"
    "xyz.openbmc_project.ObjectMapper" "GetSubTreePaths"
    [arg_s path; arg_i depth; arg_as interfaces].

(** A request is a [GetSubTreePaths] call. *)
Definition isSubTreePathsCall (req : request) : bool :=
  match req with
  | method_call _ _ _ method _ => bool_decide (method = "GetSubTreePaths")
  | property_get _ _ _ _ => false
  end.

(** A bus, for examples and tests, that answers the endpoints read of
    [assoc] and every [GetSubTreePaths] call, and fails anything else with
    code [5]. *)
Definition fakeBus (assoc : string) (endpoints : error_code * list string)
    (subtree : error_code * list string) : Bus :=
  λ sig req,
    match sig return error_code * unpacked sig with
    | sig_as =>
        match req with
        | property_get _ path _ _ =>
            if bool_decide (path = assoc) then endpoints else (5, [])
        | method_call _ _ _ _ _ => subtree
        end
    | sig_a_sas => (5, [])
    | sig_a_s_a_sas => (5, [])
    end.

(** The same bus with a mapper that also answers [GetObject], with
    [objects]. *)
Definition fakeBusWithObjects (assoc : string)
    (endpoints subtree : error_code * list string)
    (objects : MapperGetObject) : Bus :=
  λ sig req,
    match sig return error_code * unpacked sig with
    | sig_as => fakeBus assoc endpoints subtree sig_as req
    | sig_a_sas => (0, objects)
    | sig_a_s_a_sas => (5, [])
    end.

(** ** Vocabulary of the statements *)

(** What escaping does to one character. *)
Definition escapeChar (c : ascii) : ascii :=
  if std.in_bracket c then c else "_"%char.

(** The pieces of a string between its ['/'] characters. *)
Fixpoint split_at_slash (s : string) : list string :=
  match s with
  | EmptyString => [""]
  | String c s' =>
      if Ascii.eqb c "/"%char then "" :: split_at_slash s'
      else
        match split_at_slash s' with
        | piece :: pieces => String c piece :: pieces
        | [] => [String c ""]
        end
  end.

(** The non-empty segments of a path, in order, as the specification
    describes them: [/a/b/c] has the segments [a], [b], [c]. *)
Definition segments (path : string) : list string :=
  filter (λ piece, piece ≠ "") (split_at_slash path).

(** No directory separator occurs in the string. *)
Fixpoint slash_free (s : string) : Prop :=
  match s with
  | EmptyString => True
  | String c s' => std.is_separator c = false ∧ slash_free s'
  end.

(** The traversal of a list of segments by [getNthStringFromPath]. *)
Fixpoint pick (index : Z) (segs : list string) (count : Z)
    (result : string) : Z * string :=
  match segs with
  | [] => (count, result)
  | seg :: rest =>
      if (count + 1 =? index)%Z then (count + 1, std.stem seg)
      else pick index rest (count + 1) result
  end.

(** What an execution of a task looks like, by the shape of the task. *)
Definition exec_shape {R} (task : Task R) (trace : list event) (r : R) : Prop :=
  match task with
  | Called r' => trace = [] ∧ r = r'
  | Pending sig req handler =>
      ∃ ec value trace',
        trace = Issue req :: Reply req ec sig value :: trace'
        ∧ exec (handler ec value) trace' r
  end.

(** [!(s2 < s1)], what [std::sort] establishes between neighbours. *)
Definition not_after (s1 s2 : string) : Prop := ¬ std.string_lt s2 s1.

(** The paths delivered when both stages pass: the subtree paths that are
    endpoints, sorted. *)
Definition merged (endpoints subtreePaths : list string) : list string :=
  std.sort
    (filter (λ objectPath, objectPath ∈ (list_to_set endpoints : gset string))
       subtreePaths).

(** The mapper's addressing triple on a method call. *)
Definition addressesMapper (req : request) : Prop :=
  match req with
  | method_call service path interface _ _ =>
      service = "xyz.openbmc_project.ObjectMapper"
      ∧ path = "/xyz/openbmc_project/object_mapper"
      ∧ interface = "xyz.openbmc_project.ObjectMapper"
  | property_get _ _ _ _ => False
  end.

(** The read of the [endpoints] property of the association at [assoc]. *)
Definition readsEndpointsOf (assoc : string) (req : request) : Prop :=
  match req with
  | property_get service path interface property =>
      service = "xyz.openbmc_project.ObjectMapper"
      ∧ path = assoc
      ∧ interface = "xyz.openbmc_project.Association"
      ∧ property = "endpoints"
  | method_call _ _ _ _ _ => False
  end.

(** The merge, as the specification words it: for both stages succeeding
    with something to merge, the delivered sequence is strictly ascending,
    free of duplicates, and holds exactly the paths found in both
    replies. *)
Definition strictly_ascending_intersection (bus : Bus)
    (associatedPath path : string) (depth : Z) (interfaces : list string)
  : Prop :=
  ∀ endpoints subtreePaths,
    bus sig_as (endpointsRequest associatedPath) = (0, endpoints) →
    endpoints ≠ [] →
    bus sig_as (subTreePathsRequest path depth interfaces)
      = (0, subtreePaths) →
    subtreePaths ≠ [] →
    ∃ delivered,
      (run bus (getAssociatedSubTreePaths associatedPath path depth
                  interfaces deliver)).2 = (0, delivered)
      ∧ Sorted std.string_lt delivered
      ∧ NoDup delivered
      ∧ ∀ p, p ∈ delivered ↔ p ∈ subtreePaths ∧ p ∈ endpoints.

(** No period occurs in the string. *)
Fixpoint no_period (s : string) : Prop :=
  match s with
  | EmptyString => True
  | String c s' => c ≠ "."%char ∧ no_period s'
  end.

(** A segment with its filename-style extension stripped, as the
    specification describes the stem: a segment that is ["."] or [".."],
    or that has no period after its first character, is kept whole;
    any other segment is cut before its last period, so that it reads
    [found], a period, and an extension without period. *)
Definition strippedOfExtension (seg found : string) : Prop :=
  ((seg = "." ∨ seg = ".."
    ∨ match seg with
      | EmptyString => True
      | String _ rest => no_period rest
      end)
   ∧ found = seg)
  ∨ (seg ≠ ".." ∧ found ≠ ""
     ∧ ∃ ext, no_period ext ∧ seg = found +:+ String "." ext).

(** Every character of the string is one of [A-Za-z0-9_/]. *)
Fixpoint all_in_bracket (s : string) : Prop :=
  match s with
  | EmptyString => True
  | String c s' => std.in_bracket c = true ∧ all_in_bracket s'
  end.

(** The path made of [n] separators and nothing else. *)
Fixpoint slashes (n : nat) : string :=
  match n with
  | O => ""
  | S n' => String "/" (slashes n')
  end.

(** A caller of [getSubTree] that only records what its callback
    receives. *)
Definition deliverSubTree (ec : error_code) (subtree : MapperGetSubTreeResponse)
  : Task (error_code * MapperGetSubTreeResponse) :=
  Called (ec, subtree).

(** * Properties *)

Example escape_example : escapePathForDbus "a/b c!d" = "a/b_c_d".
Proof. reflexivity. Qed.

Example nth_example_state :
  getNthStringFromPath "/xyz/openbmc_project/state/host0" 2 "" = (true, "state").
Proof. reflexivity. Qed.

Example nth_example_9 :
  getNthStringFromPath "/xyz/openbmc_project/state/host0" 9 "old" = (false, "old").
Proof. reflexivity. Qed.

Example elements_examples :
  std.path_elements "/a//b.c/" = ["/"; "a"; "b.c"; ""] /\
  segments "/a//b.c/" = ["a"; "b.c"] /\
  std.stem "b.c" = "b" /\ std.stem ".." = ".." /\ std.stem ".hid" = ".hid" /\
  std.stem "a.b.c" = "a.b" /\ std.stem "/x/y.z" = "y" /\ std.has_filename "/" = false.
Proof. repeat split; reflexivity. Qed.

Example sort_example : std.sort ["b"; "a"; "ab"; "a"] = ["a"; "a"; "ab"; "b"].
Proof. reflexivity. Qed.

Example end_to_end :
  run (fakeBus "/assoc" (0, ["/inv/sys/fan0"; "/inv/sys/fan1"])
                        (0, ["/inv/sys/fan0"; "/inv/sys/psu0"]))
      (getAssociatedSubTreePaths "/assoc" "/inv" 0 [] deliver)
  = ([Issue (endpointsRequest "/assoc");
      Reply (endpointsRequest "/assoc") 0 sig_as ["/inv/sys/fan0"; "/inv/sys/fan1"];
      Issue (subTreePathsRequest "/inv" 0 []);
      Reply (subTreePathsRequest "/inv" 0 []) 0 sig_as ["/inv/sys/fan0"; "/inv/sys/psu0"]],
     (0, ["/inv/sys/fan0"])).
Proof. vm_compute. reflexivity. Qed.

Example path_exists :
  (run (fakeBusWithObjects "/assoc" (0, []) (0, [])
          [("xyz.openbmc_project.State.Host", ["xyz.openbmc_project.State.Host"])])
     (checkDbusPathExists "/xyz/openbmc_project/state/host0" Called)).2 = true
  ∧ (run (fakeBusWithObjects "/assoc" (0, []) (0, []) [])
       (checkDbusPathExists "/xyz/openbmc_project/state/host0" Called)).2 = false
  ∧ (run (fakeBus "/assoc" (0, []) (0, []))
       (checkDbusPathExists "/xyz/openbmc_project/state/host0" Called)).2 = false.
Proof. repeat split; reflexivity. Qed.

(** ** Path escaping *)

Section escape.

Lemma copy_in_place n : ∀ buf p,
  (p + n ≤ length buf)%nat → std.copy buf p n p = (buf, (p + n)%nat).
Proof.
  induction n as [|n IH]; intros buf p Hp; simpl.
  - f_equal. lia.
  - destruct (lookup_lt_is_Some_2 buf p) as [c Hc]; [lia|].
    rewrite Hc, list_insert_id by done.
    rewrite IH by lia. f_equal. lia.
Qed.

Lemma escapeChar_match c : std.reg c = true → escapeChar c = "_"%char.
Proof. unfold std.reg, escapeChar. by destruct (std.in_bracket c). Qed.

Lemma escapeChar_no_match c : std.reg c = false → escapeChar c = c.
Proof. unfold std.reg, escapeChar. by destruct (std.in_bracket c). Qed.

Lemma first_match_None l :
  std.first_match l = None → map escapeChar l = l.
Proof.
  induction l as [|c l IH]; simpl; [done|].
  destruct (std.reg c) eqn:Hc; [done|].
  destruct (std.first_match l); [done|]. intros _.
  by rewrite escapeChar_no_match, IH.
Qed.

Lemma first_match_Some l : ∀ k,
  std.first_match l = Some k →
  ∃ l1 c l2, l = l1 ++ c :: l2 ∧ length l1 = k ∧ std.reg c = true
             ∧ map escapeChar l1 = l1.
Proof.
  induction l as [|c l IH]; simpl; intros k Hk; [done|].
  destruct (std.reg c) eqn:Hc.
  - injection Hk as <-. by exists [], c, l.
  - destruct (std.first_match l) as [k'|]; [|done].
    injection Hk as <-.
    destruct (IH k' eq_refl) as (l1 & c' & l2 & -> & <- & Hc' & Hl1).
    exists (c :: l1), c', l2. repeat split; [done|].
    simpl. by rewrite escapeChar_no_match, Hl1.
Qed.

(** With [out] at the read position the loop rewrites the rest of the
    buffer character by character and leaves what is before untouched. *)
Lemma regex_replace_from_in_place fuel : ∀ pre rest,
  (length rest < fuel)%nat →
  std.regex_replace_from fuel (pre ++ rest) (length pre) (length pre)
  = pre ++ map escapeChar rest.
Proof.
  induction fuel as [|fuel IH]; intros pre rest Hfuel; [lia|].
  simpl. unfold std.regex_search.
  rewrite drop_app_length.
  destruct (std.first_match rest) as [k|] eqn:Hm; simpl.
  - destruct (first_match_Some _ _ Hm) as (l1 & c & l2 & -> & <- & Hc & Hl1).
    replace (length pre + length l1 - length pre)%nat with (length l1) by lia.
    rewrite copy_in_place by (rewrite !length_app; simpl; lia).
    replace (pre ++ l1 ++ c :: l2) with ((pre ++ l1) ++ c :: l2)
      by (by rewrite <- app_assoc).
    rewrite <- (length_app pre l1).
    rewrite <- (Nat.add_0_r (length (pre ++ l1))) at 1.
    rewrite insert_app_r. simpl.
    replace ((pre ++ l1) ++ "_"%char :: l2)
      with ((pre ++ l1 ++ ["_"%char]) ++ l2)
      by (by rewrite <- !app_assoc).
    replace (S (length (pre ++ l1))) with (length (pre ++ l1 ++ ["_"%char]))
      by (rewrite !length_app; simpl; lia).
    rewrite IH by (rewrite length_app in Hfuel; simpl in Hfuel; lia).
    rewrite map_app. simpl. rewrite Hl1, (escapeChar_match c Hc).
    by rewrite <- !app_assoc.
  - rewrite copy_in_place by (rewrite length_app; lia).
    simpl. by rewrite (first_match_None _ Hm).
Qed.

Lemma regex_replace_in_place buf :
  std.regex_replace buf 0 = map escapeChar buf.
Proof.
  unfold std.regex_replace.
  apply (regex_replace_from_in_place (S (length buf)) [] buf). lia.
Qed.

Lemma length_string_of_list_ascii l :
  String.length (string_of_list_ascii l) = length l.
Proof. induction l; simpl; congruence. Qed.

Lemma length_list_ascii_of_string s :
  length (list_ascii_of_string s) = String.length s.
Proof. induction s; simpl; congruence. Qed.

Lemma get_string_of_list_ascii l : ∀ i,
  String.get i (string_of_list_ascii l) = l !! i.
Proof. induction l as [|c l IH]; intros [|i]; simpl; auto. Qed.

Lemma lookup_list_ascii_of_string s : ∀ i,
  list_ascii_of_string s !! i = String.get i s.
Proof. induction s as [|c s IH]; intros [|i]; simpl; auto. Qed.

End escape.

(** C4. For every input string, [escapePathForDbus] leaves a string of the
    same length in which every character outside [A-Za-z0-9_/] has become
    ['_'] and every other character is as it was; escaping ["a/b c!d"]
    gives ["a/b_c_d"]. *)
Theorem escapePathForDbus_replaces_outside_bracket (path : string) :
  String.length (escapePathForDbus path) = String.length path
  ∧ (∀ i : nat,
       String.get i (escapePathForDbus path)
       = (λ c, if std.in_bracket c then c else "_"%char) <$> String.get i path)
  ∧ escapePathForDbus "a/b c!d" = "a/b_c_d".
Proof.
  unfold escapePathForDbus. rewrite regex_replace_in_place.
  split; [|split].
  - by rewrite length_string_of_list_ascii, length_map,
      length_list_ascii_of_string.
  - intros i. rewrite get_string_of_list_ascii, list_lookup_fmap,
      lookup_list_ascii_of_string. done.
  - reflexivity.
Qed.

(** ** Path segments *)

Section segments.

Lemma append_cons c s t : String c s +:+ t = String c (s +:+ t).
Proof. reflexivity. Qed.

Lemma append_nil_r s : s +:+ "" = s.
Proof. induction s as [|c s IH]; [done|]. by rewrite append_cons, IH. Qed.

Lemma append_snoc n c s : (n +:+ String c "") +:+ s = n +:+ String c s.
Proof.
  induction n as [|a n IH]; [done|]. by rewrite !append_cons, IH.
Qed.

Lemma slash_free_snoc n c :
  slash_free n → std.is_separator c = false →
  slash_free (n +:+ String c "").
Proof.
  induction n as [|a n IH]; simpl; [done|].
  intros [Ha Hn] Hc. auto.
Qed.

Lemma snoc_not_empty n c : n +:+ String c "" ≠ "".
Proof. by destruct n. Qed.

Lemma elements_in_name e : ∀ n,
  slash_free e → std.elements_from (std.InName n) e = [n +:+ e].
Proof.
  induction e as [|c e IH]; intros n He; simpl.
  - by rewrite append_nil_r.
  - destruct He as [-> He]. by rewrite IH, append_snoc.
Qed.

Lemma filename_of_name e : slash_free e → e ≠ "" → std.filename e = e.
Proof.
  destruct e as [|c e]; [done|]. intros [Hc He] _.
  unfold std.filename, std.path_elements. simpl. rewrite Hc. simpl.
  by rewrite elements_in_name.
Qed.

Lemma has_filename_of_name e :
  slash_free e → e ≠ "" → std.has_filename e = true.
Proof.
  intros He Hne. unfold std.has_filename.
  rewrite filename_of_name by done. by destruct e.
Qed.

Lemma stem_of_name e :
  slash_free e → e ≠ "" → std.stem e = std.stem_of_filename e.
Proof. intros. unfold std.stem. by rewrite filename_of_name. Qed.

Lemma split_at_slash_free s : Forall slash_free (split_at_slash s).
Proof.
  induction s as [|c s IH]; simpl.
  - by repeat constructor.
  - destruct (Ascii.eqb c "/") eqn:Hc; [by constructor|].
    destruct (split_at_slash s) as [|piece pieces]; [by repeat constructor|].
    inversion_clear IH. by repeat constructor.
Qed.

Lemma segments_free path seg :
  seg ∈ segments path → slash_free seg ∧ seg ≠ "".
Proof.
  unfold segments. rewrite list_elem_of_filter. intros [Hne Hin].
  split; [|done].
  by eapply (proj1 (Forall_forall _ _) (split_at_slash_free path)).
Qed.

(** The elements with a filename are the non-empty segments, from any
    position of the parser. *)
Lemma filter_elements_from s :
  filter (λ e, std.has_filename e = true) (std.elements_from std.AtStart s)
    = segments s
  ∧ filter (λ e, std.has_filename e = true)
      (std.elements_from std.AfterSep s) = segments s
  ∧ ∀ n, slash_free n → n ≠ "" →
      ∃ piece pieces, split_at_slash s = piece :: pieces
        ∧ filter (λ e, std.has_filename e = true)
            (std.elements_from (std.InName n) s)
          = (n +:+ piece) :: filter (λ piece, piece ≠ "") pieces.
Proof.
  unfold segments.
  induction s as [|c s (IHstart & IHsep & IHname)].
  - repeat split; [done..|]. intros n Hn Hne. exists "", []. split; [done|].
    simpl. rewrite filter_cons_True by by apply has_filename_of_name.
    by rewrite append_nil_r.
  - simpl. unfold std.is_separator at 1 2 3.
    destruct (Ascii.eqb c "/") eqn:Hc.
    + rewrite (filter_cons_False _ ""), IHstart, IHsep by (intros ?; done).
      repeat split. intros n Hn Hne. exists "", (split_at_slash s).
      split; [done|].
      rewrite filter_cons_True by by apply has_filename_of_name.
      by rewrite IHsep, append_nil_r.
    + assert (Hone : slash_free (String c "")) by done.
      destruct (IHname (String c "") Hone) as (piece & pieces & Hs & Hf);
        [done|].
      rewrite Hs, Hf.
      rewrite (filter_cons_True _ (String c piece)) by done.
      repeat split. intros n Hn Hne.
      destruct (IHname (n +:+ String c "")) as (piece' & pieces' & Hs' & Hf');
        [by apply slash_free_snoc|by apply snoc_not_empty|].
      exists (String c piece), pieces. split; [done|].
      rewrite Hf', append_snoc. rewrite Hs in Hs'. by injection Hs' as <- <-.
Qed.

Lemma filter_path_elements path :
  filter (λ e, std.has_filename e = true) (std.path_elements path)
  = segments path.
Proof.
  unfold std.path_elements. rewrite filter_app.
  rewrite (proj1 (filter_elements_from path)).
  destruct path as [|c path]; [done|].
  by destruct (std.is_separator c).
Qed.

Lemma nth_loop_pick index elements : ∀ count result,
  nth_loop index elements count result
  = pick index (filter (λ e, std.has_filename e = true) elements)
      count result.
Proof.
  induction elements as [|e elements IH]; intros count result; [done|].
  simpl. destruct (std.has_filename e) eqn:He.
  - rewrite filter_cons_True by done. simpl.
    by destruct (count + 1 =? index)%Z.
  - rewrite filter_cons_False by (by rewrite He). apply IH.
Qed.

Lemma pick_lookup index segs : ∀ count result,
  count < index →
  pick index segs count result
  = match segs !! Z.to_nat (index - count - 1) with
    | Some seg => (index, std.stem seg)
    | None => (count + Z.of_nat (length segs), result)
    end.
Proof.
  induction segs as [|seg segs IH]; intros count result Hlt; simpl.
  - f_equal. lia.
  - destruct (Z.eqb_spec (count + 1) index) as [<-|Hne].
    + by replace (Z.to_nat (count + 1 - count - 1)) with 0%nat by lia.
    + rewrite IH by lia.
      replace (Z.to_nat (index - count - 1))
        with (S (Z.to_nat (index - (count + 1) - 1))) by lia.
      simpl. destruct (segs !! _); [done|]. f_equal. lia.
Qed.

(** The counter never passes [index], so [++count] stays within [int]
    whenever [index] is one. *)
Lemma nth_loop_count_le index elements : ∀ count result,
  count < index → ((nth_loop index elements count result).1 ≤ index)%Z.
Proof.
  induction elements as [|e elements IH]; intros count result Hle;
    simpl; [lia|].
  destruct (std.has_filename e); [|by apply IH].
  destruct (Z.eqb_spec (count + 1) index) as [Heq|Hne]; simpl; [lia|].
  apply IH. lia.
Qed.

Lemma getNthStringFromPath_lookup path index result :
  (0 ≤ index)%Z →
  getNthStringFromPath path index result
  = match segments path !! Z.to_nat index with
    | Some seg => (true, std.stem_of_filename seg)
    | None => (false, result)
    end.
Proof.
  intros Hidx. unfold getNthStringFromPath.
  destruct (Z.ltb_spec index 0) as [?|_]; [lia|].
  rewrite nth_loop_pick, filter_path_elements, pick_lookup by lia.
  replace (Z.to_nat (index - -1 - 1)) with (Z.to_nat index) by lia.
  destruct (segments path !! Z.to_nat index) as [seg|] eqn:Hseg.
  - destruct (Z.ltb_spec index index) as [?|_]; [lia|].
    apply list_elem_of_lookup_2, segments_free in Hseg as [Hfree Hne].
    by rewrite stem_of_name.
  - apply lookup_ge_None in Hseg.
    destruct (Z.ltb_spec (-1 + Z.of_nat (length (segments path))) index);
      [done|lia].
Qed.

End segments.

(** ** The stem of a segment *)

Section stem.

Implicit Types (seg found ext : string).

Lemma rfind_None_no_period s : std.rfind "." s = None → no_period s.
Proof.
  induction s as [|a s IH]; simpl; [done|].
  destruct (std.rfind "." s); [done|].
  destruct (Ascii.eqb_spec a ".") as [->|Hne]; [done|]. auto.
Qed.

(** The index [rfind] returns cuts the string at its last period. *)
Lemma rfind_Some_cut s : ∀ pos,
  std.rfind "." s = Some pos →
  ∃ ext, no_period ext ∧ s = String.substring 0 pos s +:+ String "." ext.
Proof.
  induction s as [|a s IH]; simpl; intros pos Hpos; [done|].
  destruct (std.rfind "." s) as [i|] eqn:Hfind.
  - injection Hpos as <-. destruct (IH i eq_refl) as (ext & Hext & Hs).
    exists ext. split; [done|].
    change (String.substring 0 (S i) (String a s))
      with (String a (String.substring 0 i s)).
    rewrite append_cons. by f_equal.
  - destruct (Ascii.eqb_spec a ".") as [->|Hne]; [|done].
    injection Hpos as <-. exists s. split; [by apply rfind_None_no_period|].
    by destruct s.
Qed.

(** [stem()] of a filename strips its extension. *)
Lemma stem_of_filename_stripped seg :
  strippedOfExtension seg (std.stem_of_filename seg).
Proof.
  unfold std.stem_of_filename. case_bool_decide as Hdots.
  - left. split; [|done]. destruct Hdots; auto.
  - destruct (std.rfind "." seg) as [[|pos]|] eqn:Hfind.
    + left. split; [|done]. do 2 right.
      destruct (rfind_Some_cut _ _ Hfind) as (ext & Hext & Hseg).
      destruct seg as [|a seg]; [done|].
      simpl in Hseg. by injection Hseg as _ ->.
    + right. split; [by intros ->; apply Hdots; right|].
      destruct (rfind_Some_cut _ _ Hfind) as (ext & Hext & Hseg).
      split; [|by exists ext].
      destruct seg as [|a seg]; [done|]. done.
    + left. split; [|done]. do 2 right.
      apply rfind_None_no_period in Hfind.
      destruct seg as [|a seg]; [done|]. by destruct Hfind.
Qed.

Lemma no_period_cut found ext : ¬ no_period (found +:+ String "." ext).
Proof.
  induction found as [|a found IH]; simpl.
  - by intros [? _].
  - intros [_ ?]. by apply IH.
Qed.

Lemma cut_unique found : ∀ found' ext ext',
  no_period ext → no_period ext' →
  found +:+ String "." ext = found' +:+ String "." ext' →
  found = found'.
Proof.
  induction found as [|a found IH]; intros [|a' found'] ext ext' Hext Hext';
    simpl; intros Heq; [done| | |].
  - injection Heq as <- ->. destruct (no_period_cut _ _ Hext).
  - injection Heq as -> <-. destruct (no_period_cut _ _ Hext').
  - injection Heq as -> Heq. f_equal. by apply (IH found' ext ext').
Qed.

(** A segment has one stem only: the description pins the string. *)
Lemma strippedOfExtension_unique seg found found' :
  strippedOfExtension seg found → strippedOfExtension seg found' →
  found = found'.
Proof.
  assert (∀ f, (seg = "." ∨ seg = ".."
                ∨ match seg with
                  | EmptyString => True
                  | String _ rest => no_period rest
                  end) →
               seg ≠ ".." → f ≠ "" →
               (∃ ext, no_period ext ∧ seg = f +:+ String "." ext) → False)
    as Hexcl.
  { intros f Hwhole Hne Hf (ext & Hext & Hseg).
    destruct Hwhole as [->|[->|Hrest]]; [|done|].
    - destruct f as [|a [|b f]]; done.
    - destruct seg as [|a rest]; [by destruct f|].
      destruct f as [|b f]; [done|]. simpl in Hseg.
      injection Hseg as _ ->. destruct (no_period_cut _ _ Hrest). }
  intros [[Hwhole ->]|(Hne & Hf & Hcut)] [[Hwhole' ->]|(Hne' & Hf' & Hcut')];
    [done|by destruct (Hexcl found')|by destruct (Hexcl found)|].
  destruct Hcut as (ext & Hext & ->), Hcut' as (ext' & Hext' & Heq).
  by apply (cut_unique found found' ext ext').
Qed.

End stem.

(** C5. [getNthStringFromPath] cuts the path into its non-empty segments,
    in order; it fails when the index is negative or at least the number
    of segments, and otherwise succeeds with the segment at that index
    stripped of its filename-style extension (the stem).  On
    ["/xyz/openbmc_project/state/host0"] index 2 gives ["state"] and
    index 9 fails; a segment ["b.c"] gives ["b"]. *)
Theorem getNthStringFromPath_segment (path : string) (index : Z)
    (result : string) :
  ((index < 0 ∨ Z.of_nat (length (segments path)) ≤ index)%Z →
   getNthStringFromPath path index result = (false, result))
  ∧ ((0 ≤ index < Z.of_nat (length (segments path)))%Z →
     ∃ found,
       getNthStringFromPath path index result = (true, found)
       ∧ strippedOfExtension
           (nth (Z.to_nat index) (segments path) "") found)
  ∧ getNthStringFromPath "/xyz/openbmc_project/state/host0" 2 result
    = (true, "state")
  ∧ (getNthStringFromPath "/xyz/openbmc_project/state/host0" 9 result).1
    = false
  ∧ getNthStringFromPath "/a//b.c/" 1 result = (true, "b")
  ∧ getNthStringFromPath "/org/xyz.openbmc_project.State/.hidden" 1 result
    = (true, "xyz.openbmc_project")
  ∧ getNthStringFromPath "/org/xyz.openbmc_project.State/.hidden" 2 result
    = (true, ".hidden").
Proof.
  split; [|split; [|by repeat split]].
  - intros Hout. destruct (Z.ltb_spec index 0) as [Hneg|Hpos].
    + unfold getNthStringFromPath.
      by destruct (Z.ltb_spec index 0) as [_|?]; [|lia].
    + rewrite getNthStringFromPath_lookup by done.
      rewrite (proj2 (lookup_ge_None _ _)); [done|lia].
  - intros [Hlo Hhi].
    rewrite getNthStringFromPath_lookup by done.
    destruct (lookup_lt_is_Some_2 (segments path) (Z.to_nat index))
      as [seg Hseg]; [lia|].
    rewrite Hseg, (nth_lookup_Some _ _ _ _ Hseg).
    exists (std.stem_of_filename seg).
    split; [done|apply stem_of_filename_stripped].
Qed.

(** C10. Whenever [getNthStringFromPath] returns [false], the reference
    parameter [result] holds what it held before the call. *)
Theorem getNthStringFromPath_false_keeps_result (path : string) (index : Z)
    (result : string) :
  (getNthStringFromPath path index result).1 = false →
  (getNthStringFromPath path index result).2 = result.
Proof.
  destruct (Z.ltb_spec index 0) as [Hneg|Hpos].
  - unfold getNthStringFromPath.
    by destruct (Z.ltb_spec index 0) as [_|?]; [|lia].
  - rewrite getNthStringFromPath_lookup by done.
    by destruct (segments path !! Z.to_nat index).
Qed.

Lemma getNthStringFromPath_false_keeps_result_witness :
  (getNthStringFromPath "/xyz/openbmc_project/state/host0" 9 "kept").1 = false
  ∧ (getNthStringFromPath "/xyz/openbmc_project/state/host0" 9 "kept").2
    = "kept".
Proof.
  split; [reflexivity|].
  apply (getNthStringFromPath_false_keeps_result
           "/xyz/openbmc_project/state/host0" 9 "kept").
  reflexivity.
Defined.

(** ** Executions *)

Section executions.

Context {R : Type}.

Lemma exec_inv (task : Task R) trace r :
  exec task trace r → exec_shape task trace r.
Proof. destruct 1; simpl; eauto 6. Qed.

(** A run against a bus is one of the executions. *)
Lemma run_exec (bus : Bus) (task : Task R) :
  exec task (run bus task).1 (run bus task).2.
Proof.
  induction task as [r|sig req handler IH]; simpl; [constructor|].
  destruct (bus sig req) as [ec value] eqn:Hbus.
  specialize (IH ec value).
  destruct (run bus (handler ec value)) as [trace r].
  by constructor.
Qed.

(** Two buses that give the same replies along the way run a task the
    same way. *)
Lemma run_ext (bus1 bus2 : Bus) (task : Task R) :
  (∀ sig req, Issue req ∈ (run bus1 task).1 → bus1 sig req = bus2 sig req) →
  run bus1 task = run bus2 task.
Proof.
  induction task as [r|sig req handler IH]; simpl; [done|].
  intros Hsame. rewrite <- (Hsame sig req).
  - destruct (bus1 sig req) as [ec value].
    rewrite <- IH; [done|].
    intros sig' req' Hin. apply Hsame.
    destruct (bus1 sig req), (run bus1 (handler ec value)).
    simpl. by do 2 right.
  - destruct (bus1 sig req) as [ec value],
      (run bus1 (handler ec value)). by left.
Qed.

End executions.

(** ** Sorting strings *)

Section sorting.

Lemma string_le_not_after s1 s2 : String.le s1 s2 ↔ not_after s1 s2.
Proof.
  unfold String.le, not_after, std.string_lt, String.leb, String.ltb.
  rewrite (String.compare_antisym s2 s1).
  destruct (s1 ?= s2)%string; simpl; split; done.
Qed.

Lemma string_lt_le_ne s1 s2 :
  std.string_lt s1 s2 ↔ String.le s1 s2 ∧ s1 ≠ s2.
Proof.
  unfold String.le, std.string_lt, String.leb, String.ltb.
  destruct (s1 ?= s2)%string eqn:Hc; simpl.
  - apply String.compare_eq_iff in Hc. split; [done|]. by intros [_ ?].
  - split; [|done]. intros _. split; [done|]. intros ->.
    pose proof (String.compare_antisym s2 s2) as Ha.
    rewrite Hc in Ha. done.
  - split; [done|]. by intros [? _].
Qed.

Lemma Sorted_weaken {A} (R1 R2 : relation A) l :
  (∀ x y, R1 x y → R2 x y) → Sorted R1 l → Sorted R2 l.
Proof.
  intros Himpl. induction 1 as [|x l Hl IH Hx]; constructor; [done|].
  destruct Hx; constructor; auto.
Qed.

Lemma sort_sorted v : Sorted String.le (std.sort v).
Proof. apply (Sorted_merge_sort String.le). Qed.

Lemma sort_perm v : std.sort v ≡ₚ v.
Proof. apply (merge_sort_Permutation String.le). Qed.

(** Whatever algorithm [std::sort] runs, the outcome is this one. *)
Lemma sort_unique v l : Sorted not_after l → l ≡ₚ v → l = std.sort v.
Proof.
  intros Hsorted Hperm.
  apply (Sorted_unique String.le); [|apply sort_sorted|by rewrite sort_perm].
  eapply Sorted_weaken; [|done]. intros ??. by apply string_le_not_after.
Qed.

Lemma elem_of_sort v p : p ∈ std.sort v ↔ p ∈ v.
Proof. by rewrite sort_perm. Qed.

Lemma sorted_le_NoDup_lt l :
  Sorted String.le l → NoDup l → Sorted std.string_lt l.
Proof.
  intros Hsorted. apply Sorted_StronglySorted in Hsorted; [|apply _].
  induction Hsorted as [|x l Hl IH Hx]; intros Hnd; [constructor|].
  apply NoDup_cons in Hnd as [Hx' Hnd].
  constructor; [by apply IH|].
  destruct l as [|y l]; constructor.
  apply string_lt_le_ne. split.
  - by apply Forall_cons in Hx as [? _].
  - intros ->. apply Hx'. by left.
Qed.

Lemma collectAssociated_filter endpointSet subtreePaths : ∀ acc,
  collectAssociated endpointSet subtreePaths acc
  = acc ++ filter (λ objectPath, objectPath ∈ endpointSet) subtreePaths.
Proof.
  unfold collectAssociated.
  induction subtreePaths as [|p subtreePaths IH]; intros acc; simpl.
  - by rewrite app_nil_r.
  - rewrite IH. case_bool_decide.
    + rewrite filter_cons_True by done. by rewrite <- app_assoc.
    + by rewrite filter_cons_False by done.
Qed.

End sorting.

(** ** The association pipeline *)

Section pipeline.

Variables (associatedPath path : string) (depth : Z)
          (interfaces : list string).

(** A run of the pipeline, read off the two replies of the bus. *)
Lemma run_getAssociatedSubTreePaths (bus : Bus) :
  run bus (getAssociatedSubTreePaths associatedPath path depth interfaces
             deliver)
  = let e := endpointsRequest associatedPath in
    let s := subTreePathsRequest path depth interfaces in
    let '(ec, endpoints) := bus sig_as e in
    if failed ec || bool_decide (endpoints = [])
    then ([Issue e; Reply e ec sig_as endpoints], (ec, []))
    else
      let '(ec', subtreePaths) := bus sig_as s in
      ([Issue e; Reply e ec sig_as endpoints;
        Issue s; Reply s ec' sig_as subtreePaths],
       (ec', if failed ec' || bool_decide (subtreePaths = []) then []
             else merged endpoints subtreePaths)).
Proof.
  unfold getAssociatedSubTreePaths, getAssociationEndPoints, getProperty.
  simpl. fold (endpointsRequest associatedPath).
  destruct (bus sig_as (endpointsRequest associatedPath))
    as [ec endpoints].
  unfold MapperEndPoints, MapperGetSubTreePathsResponse.
  change (unpacked sig_as) with (list string) in *.
  destruct (failed ec || bool_decide (endpoints = [])); [reflexivity|].
  unfold validateAssociatedSubTreePaths, getSubTreePaths, async_method_call.
  cbn [run]. fold (subTreePathsRequest path depth interfaces).
  destruct (bus sig_as (subTreePathsRequest path depth interfaces))
    as [ec' subtreePaths].
  unfold MapperGetSubTreePathsResponse.
  change (unpacked sig_as) with (list string) in *.
  rewrite collectAssociated_filter.
  destruct (failed ec' || bool_decide (subtreePaths = [])); reflexivity.
Qed.

Lemma elem_of_merged endpoints subtreePaths p :
  p ∈ merged endpoints subtreePaths ↔ p ∈ subtreePaths ∧ p ∈ endpoints.
Proof.
  unfold merged.
  rewrite elem_of_sort, list_elem_of_filter, elem_of_list_to_set.
  tauto.
Qed.

Lemma failed_false ec : failed ec = false ↔ ec = 0.
Proof. unfold failed. destruct (Z.eqb_spec ec 0); naive_solver. Qed.

Lemma short_circuit_test ec (l : list string) :
  failed ec = true ∨ l = [] → failed ec || bool_decide (l = []) = true.
Proof.
  intros [->| ->]; [done|]. by rewrite orb_true_r.
Qed.

Lemma pass_test ec (l : list string) :
  failed ec = false → l ≠ [] → failed ec || bool_decide (l = []) = false.
Proof. intros -> ?. by rewrite bool_decide_eq_false_2. Qed.

(** Every execution of the pipeline, whatever replies arrive. *)
Lemma exec_getAssociatedSubTreePaths trace r :
  exec (getAssociatedSubTreePaths associatedPath path depth interfaces
          deliver) trace r →
  ∃ ec (endpoints : list string),
    let e := endpointsRequest associatedPath in
    let s := subTreePathsRequest path depth interfaces in
    if failed ec || bool_decide (endpoints = [])
    then trace = [Issue e; Reply e ec sig_as endpoints] ∧ r = (ec, [])
    else
      ∃ ec' (subtreePaths : list string),
        trace = [Issue e; Reply e ec sig_as endpoints;
                 Issue s; Reply s ec' sig_as subtreePaths]
        ∧ r = (ec', if failed ec' || bool_decide (subtreePaths = [])
                    then [] else merged endpoints subtreePaths).
Proof.
  intros Hexec. apply exec_inv in Hexec.
  destruct Hexec as (ec & endpoints & trace1 & -> & Hexec).
  exists ec, endpoints. simpl.
  unfold MapperEndPoints, MapperGetSubTreePathsResponse in *.
  change (unpacked sig_as) with (list string) in *.
  destruct (failed ec || bool_decide (endpoints = [])).
  - apply exec_inv in Hexec. by destruct Hexec as [-> ->].
  - apply exec_inv in Hexec.
    destruct Hexec as (ec' & subtreePaths & trace2 & -> & Hexec).
    exists ec', subtreePaths.
    unfold MapperGetSubTreePathsResponse in *.
    change (unpacked sig_as) with (list string) in *.
    rewrite collectAssociated_filter in Hexec.
    destruct (failed ec' || bool_decide (subtreePaths = []));
      apply exec_inv in Hexec; by destruct Hexec as [-> ->].
Qed.

End pipeline.

(** C1. If the endpoints read resolves with a failure status, or with
    success and no endpoint, [getAssociatedSubTreePaths] hands exactly that
    status and an empty path sequence to its callback, and no
    [GetSubTreePaths] call is ever issued. *)
Theorem endpoints_stage_short_circuit (bus : Bus)
    (associatedPath path : string) (depth : Z) (interfaces : list string)
    (ec : error_code) (endpoints : MapperEndPoints) :
  bus sig_as (endpointsRequest associatedPath) = (ec, endpoints) →
  failed ec = true ∨ endpoints = [] →
  run bus (getAssociatedSubTreePaths associatedPath path depth interfaces
             deliver)
  = ([Issue (endpointsRequest associatedPath);
      Reply (endpointsRequest associatedPath) ec sig_as endpoints],
     (ec, []))
  ∧ ∀ req,
      Issue req ∈ (run bus (getAssociatedSubTreePaths associatedPath path
                              depth interfaces deliver)).1 →
      isSubTreePathsCall req = false.
Proof.
  intros Hbus Hstop. rewrite run_getAssociatedSubTreePaths. simpl.
  rewrite Hbus, short_circuit_test by done.
  split; [done|].
  intros req Hin. apply list_elem_of_In in Hin.
  destruct Hin as [[= <-]|[?|[]]]; done.
Qed.

Lemma endpoints_stage_short_circuit_witness :
  run (fakeBus "/assoc" (0, []) (0, ["/inv/sys/fan0"]))
    (getAssociatedSubTreePaths "/assoc" "/inv" 0 [] deliver)
  = ([Issue (endpointsRequest "/assoc");
      Reply (endpointsRequest "/assoc") 0 sig_as []],
     (0, []))
  ∧ ∀ req,
      Issue req ∈ (run (fakeBus "/assoc" (0, []) (0, ["/inv/sys/fan0"]))
                     (getAssociatedSubTreePaths "/assoc" "/inv" 0 []
                        deliver)).1 →
      isSubTreePathsCall req = false.
Proof.
  apply (endpoints_stage_short_circuit
           (fakeBus "/assoc" (0, []) (0, ["/inv/sys/fan0"]))
           "/assoc" "/inv" 0 [] 0 []).
  - reflexivity.
  - right. reflexivity.
Defined.

(** C2. In a run that reaches the subtree stage, if [GetSubTreePaths]
    resolves with a failure status, or with success and no path, the
    callback receives that same status, unchanged also when it is success,
    with an empty path sequence: nothing is merged. *)
Theorem subtree_stage_short_circuit (bus : Bus)
    (associatedPath path : string) (depth : Z) (interfaces : list string)
    (ec : error_code) (endpoints : MapperEndPoints)
    (ec' : error_code) (subtreePaths : MapperGetSubTreePathsResponse) :
  bus sig_as (endpointsRequest associatedPath) = (ec, endpoints) →
  failed ec = false → endpoints ≠ [] →
  bus sig_as (subTreePathsRequest path depth interfaces)
    = (ec', subtreePaths) →
  failed ec' = true ∨ subtreePaths = [] →
  (run bus (getAssociatedSubTreePaths associatedPath path depth interfaces
              deliver)).2
  = (ec', []).
Proof.
  intros Hbus Hok Hne Hbus' Hstop. rewrite run_getAssociatedSubTreePaths.
  simpl. rewrite Hbus, pass_test, Hbus', short_circuit_test by done. done.
Qed.

Lemma subtree_stage_short_circuit_witness :
  (run (fakeBus "/assoc" (0, ["/inv/sys/fan0"]) (0, []))
     (getAssociatedSubTreePaths "/assoc" "/inv" 0 [] deliver)).2
  = (0, []).
Proof.
  apply (subtree_stage_short_circuit
           (fakeBus "/assoc" (0, ["/inv/sys/fan0"]) (0, []))
           "/assoc" "/inv" 0 [] 0 ["/inv/sys/fan0"] 0 []).
  - reflexivity.
  - reflexivity.
  - discriminate.
  - reflexivity.
  - right. reflexivity.
Defined.

(** A subtree reply that lists a path twice is delivered with the path
    twice: the vector is sorted, not made unique. *)
Lemma repeated_subtree_path_is_delivered_twice :
  ¬ strictly_ascending_intersection
      (fakeBus "/assoc" (0, ["/inv/sys/fan0"])
                        (0, ["/inv/sys/fan0"; "/inv/sys/fan0"]))
      "/assoc" "/inv" 0 [].
Proof.
  intros Hclaim.
  destruct (Hclaim ["/inv/sys/fan0"] ["/inv/sys/fan0"; "/inv/sys/fan0"])
    as (delivered & Hrun & _ & Hnodup & _); [done..|].
  vm_compute in Hrun. injection Hrun as <-.
  apply NoDup_cons in Hnodup as [Hnotin _].
  apply Hnotin. by left.
Qed.

(** C3, amended. When both stages succeed with something to merge, the
    delivered sequence is in ascending order of [std::string] comparison
    (no path is smaller than its predecessor), a path occurs in it if and
    only if it occurs in the subtree reply and in the endpoints, and it
    holds each such path as often as the subtree reply lists it; so when
    the subtree reply lists no path twice the sequence is strictly
    ascending without duplicates. *)
Theorem merge_sorted_intersection (bus : Bus)
    (associatedPath path : string) (depth : Z) (interfaces : list string)
    (endpoints : MapperEndPoints)
    (subtreePaths : MapperGetSubTreePathsResponse) :
  bus sig_as (endpointsRequest associatedPath) = (0, endpoints) →
  endpoints ≠ [] →
  bus sig_as (subTreePathsRequest path depth interfaces)
    = (0, subtreePaths) →
  subtreePaths ≠ [] →
  ∃ delivered,
    (run bus (getAssociatedSubTreePaths associatedPath path depth
                interfaces deliver)).2 = (0, delivered)
    ∧ Sorted not_after delivered
    ∧ (∀ p, p ∈ delivered ↔ p ∈ subtreePaths ∧ p ∈ endpoints)
    ∧ delivered ≡ₚ filter (λ p, p ∈ endpoints) subtreePaths
    ∧ (NoDup subtreePaths →
       Sorted std.string_lt delivered ∧ NoDup delivered).
Proof.
  intros Hbus Hne Hbus' Hne'. exists (merged endpoints subtreePaths).
  rewrite run_getAssociatedSubTreePaths. simpl.
  rewrite Hbus, pass_test, Hbus', pass_test by done.
  split; [done|]. split; [|split; [|split]].
  - eapply Sorted_weaken; [|apply sort_sorted].
    intros ??. by apply string_le_not_after.
  - apply elem_of_merged.
  - unfold merged. rewrite sort_perm.
    erewrite list_filter_iff; [done|].
    intros p. apply elem_of_list_to_set.
  - intros Hnodup.
    assert (NoDup (merged endpoints subtreePaths)) as Hnd.
    { unfold merged. rewrite sort_perm. by apply NoDup_filter. }
    split; [|done]. apply sorted_le_NoDup_lt; [apply sort_sorted|done].
Qed.

Lemma merge_sorted_intersection_witness :
  ∃ delivered,
    (run (fakeBus "/assoc" (0, ["/inv/sys/fan0"; "/inv/sys/fan1"])
                           (0, ["/inv/sys/fan0"; "/inv/sys/psu0"]))
       (getAssociatedSubTreePaths "/assoc" "/inv" 0 [] deliver)).2
    = (0, delivered)
    ∧ Sorted not_after delivered
    ∧ (∀ p, p ∈ delivered
            ↔ p ∈ ["/inv/sys/fan0"; "/inv/sys/psu0"]
              ∧ p ∈ ["/inv/sys/fan0"; "/inv/sys/fan1"])
    ∧ delivered
      ≡ₚ filter (λ p, p ∈ ["/inv/sys/fan0"; "/inv/sys/fan1"])
           ["/inv/sys/fan0"; "/inv/sys/psu0"]
    ∧ (NoDup ["/inv/sys/fan0"; "/inv/sys/psu0"] →
       Sorted std.string_lt delivered ∧ NoDup delivered).
Proof.
  apply (merge_sorted_intersection
           (fakeBus "/assoc" (0, ["/inv/sys/fan0"; "/inv/sys/fan1"])
                             (0, ["/inv/sys/fan0"; "/inv/sys/psu0"]))
           "/assoc" "/inv" 0 []
           ["/inv/sys/fan0"; "/inv/sys/fan1"]
           ["/inv/sys/fan0"; "/inv/sys/psu0"]).
  - reflexivity.
  - discriminate.
  - reflexivity.
  - discriminate.
Defined.

(** ** The object-mapper requests *)

(** C6. [checkDbusPathExists] issues [GetObject] on the path with an empty
    interface array, and whatever the reply, its callback receives [true]
    if and only if the call came back without an error code and with at
    least one (service, interfaces) entry. *)
Theorem checkDbusPathExists_reports (R : Type) (path : string)
    (callback : bool → Task R) :
  ∃ handler,
    checkDbusPathExists path callback
    = Pending sig_a_sas
        (method_call "xyz.openbmc_project.ObjectMapper"
           "/xyz/openbmc_project/object_mapper"
           "xyz.openbmc_project.ObjectMapper" "GetObject"
           [arg_s path; arg_as []])
        handler
    ∧ ∀ (ec : error_code) (objectNames : MapperGetObject),
        ∃ exists_ : bool,
          handler ec objectNames = callback exists_
          ∧ (exists_ = true ↔ ec = 0 ∧ objectNames ≠ []).
Proof.
  eexists. split; [reflexivity|].
  intros ec objectNames. eexists. split; [reflexivity|].
  rewrite andb_true_iff, !negb_true_iff, failed_false.
  destruct objectNames as [|entry objectNames]; simpl.
  - split; [by intros [_ ?]|by intros [_ ?]].
  - split; intros [-> _]; done.
Qed.

(** C7. The three method calls go to service
    ["xyz.openbmc_project.ObjectMapper"], object
    ["/xyz/openbmc_project/object_mapper"], interface
    ["xyz.openbmc_project.ObjectMapper"]; the endpoints read goes to the
    same service but to the association's own path, interface
    ["xyz.openbmc_project.Association"], property ["endpoints"]; and an
    execution of the pipeline issues no other kind of request. *)
Theorem requests_are_addressed_to_the_mapper (R : Type)
    (path : string) (depth : Z) (interfaces : list string) :
  (∀ callback : bool → Task R,
     ∃ req, pending_request (checkDbusPathExists path callback) = Some req
            ∧ addressesMapper req)
  ∧ (∀ callback : error_code → MapperGetSubTreeResponse → Task R,
       ∃ req, pending_request (getSubTree path depth interfaces callback)
              = Some req
              ∧ addressesMapper req)
  ∧ (∀ callback : error_code → MapperGetSubTreePathsResponse → Task R,
       ∃ req, pending_request (getSubTreePaths path depth interfaces callback)
              = Some req
              ∧ addressesMapper req)
  ∧ (∀ callback : error_code → MapperEndPoints → Task R,
       pending_request (getAssociationEndPoints path callback)
       = Some (property_get "xyz.openbmc_project.ObjectMapper" path
                 "xyz.openbmc_project.Association" "endpoints"))
  ∧ (∀ associatedPath trace r req,
       exec (getAssociatedSubTreePaths associatedPath path depth interfaces
               deliver) trace r →
       Issue req ∈ trace →
       readsEndpointsOf associatedPath req ∨ addressesMapper req).
Proof.
  repeat split.
  - intros callback. eexists. split; [reflexivity|]. by repeat split.
  - intros callback. eexists. split; [reflexivity|]. by repeat split.
  - intros callback. eexists. split; [reflexivity|]. by repeat split.
  - intros associatedPath trace r req Hexec Hin.
    apply exec_getAssociatedSubTreePaths in Hexec
      as (ec & endpoints & Hexec). simpl in Hexec.
    destruct (failed ec || bool_decide (endpoints = [])).
    + destruct Hexec as [-> _].
      apply list_elem_of_In in Hin as [[= <-]|[?|[]]]; [by left|done].
    + destruct Hexec as (ec' & subtreePaths & -> & _).
      apply list_elem_of_In in Hin as [[= <-]|[?|[[= <-]|[?|[]]]]];
        [by left|done|by right|done].
Qed.

(** C8. Two runs of [getAssociatedSubTreePaths] with the same arguments,
    against buses that give the same endpoints reply and the same subtree
    reply, issue the same requests and deliver the same status and the
    same sorted paths. *)
Theorem same_replies_same_result (bus1 bus2 : Bus)
    (associatedPath path : string) (depth : Z) (interfaces : list string) :
  bus1 sig_as (endpointsRequest associatedPath)
  = bus2 sig_as (endpointsRequest associatedPath) →
  bus1 sig_as (subTreePathsRequest path depth interfaces)
  = bus2 sig_as (subTreePathsRequest path depth interfaces) →
  run bus1 (getAssociatedSubTreePaths associatedPath path depth interfaces
              deliver)
  = run bus2 (getAssociatedSubTreePaths associatedPath path depth interfaces
                deliver).
Proof.
  intros He Hs. rewrite !run_getAssociatedSubTreePaths. simpl.
  by rewrite He, Hs.
Qed.

Lemma same_replies_same_result_witness :
  run (fakeBus "/assoc" (0, ["/b"; "/a"]) (0, ["/c"; "/b"; "/a"]))
    (getAssociatedSubTreePaths "/assoc" "/" 0 [] deliver)
  = run (fakeBusWithObjects "/assoc" (0, ["/b"; "/a"])
           (0, ["/c"; "/b"; "/a"]) [("xyz.openbmc_project.Inventory", [])])
      (getAssociatedSubTreePaths "/assoc" "/" 0 [] deliver).
Proof.
  apply (same_replies_same_result
           (fakeBus "/assoc" (0, ["/b"; "/a"]) (0, ["/c"; "/b"; "/a"]))
           (fakeBusWithObjects "/assoc" (0, ["/b"; "/a"])
              (0, ["/c"; "/b"; "/a"]) [("xyz.openbmc_project.Inventory", [])])
           "/assoc" "/" 0 []).
  - reflexivity.
  - reflexivity.
Defined.

(** C9. In every execution of [getAssociatedSubTreePaths], wherever a
    [GetSubTreePaths] call is issued, the reply to the endpoints read has
    been observed at an earlier step. *)
Theorem subtree_query_after_endpoints_reply (R : Type)
    (associatedPath path : string) (depth : Z) (interfaces : list string)
    (callback : error_code → MapperGetSubTreePathsResponse → Task R)
    (trace : list event) (r : R) (j : nat) (req : request) :
  exec (getAssociatedSubTreePaths associatedPath path depth interfaces
          callback) trace r →
  trace !! j = Some (Issue req) →
  isSubTreePathsCall req = true →
  ∃ (i : nat) ec endpoints,
    (i < j)%nat
    ∧ trace !! i
      = Some (Reply (endpointsRequest associatedPath) ec sig_as endpoints).
Proof.
  intros Hexec Hj Hreq.
  apply exec_inv in Hexec as (ec & endpoints & trace' & -> & _).
  exists 1%nat, ec, endpoints. split; [|done].
  destruct j as [|[|j]]; [|done|lia].
  injection Hj as <-. done.
Qed.

Lemma subtree_query_after_endpoints_reply_witness :
  ∃ (i : nat) ec endpoints,
    (i < 2)%nat
    ∧ [Issue (endpointsRequest "/assoc");
       Reply (endpointsRequest "/assoc") 0 sig_as ["/inv/sys/fan0"];
       Issue (subTreePathsRequest "/inv" 0 []);
       Reply (subTreePathsRequest "/inv" 0 []) 0 sig_as ["/inv/sys/fan0"]]
      !! i
      = Some (Reply (endpointsRequest "/assoc") ec sig_as endpoints).
Proof.
  apply (subtree_query_after_endpoints_reply _ "/assoc" "/inv" 0 [] deliver
           _ (0, ["/inv/sys/fan0"]) 2 (subTreePathsRequest "/inv" 0 [])).
  - apply (exec_pending sig_as (endpointsRequest "/assoc") _ 0
             ["/inv/sys/fan0"]).
    apply (exec_pending sig_as (subTreePathsRequest "/inv" 0 []) _ 0
             ["/inv/sys/fan0"]).
    apply exec_called.
  - reflexivity.
  - reflexivity.
Defined.

(** ** More on path escaping *)

Section escape_more.

Implicit Types (c : ascii) (path : string).

Lemma escapePathForDbus_map path :
  escapePathForDbus path
  = string_of_list_ascii (map escapeChar (list_ascii_of_string path)).
Proof. unfold escapePathForDbus. by rewrite regex_replace_in_place. Qed.

Lemma escapePathForDbus_cons c path :
  escapePathForDbus (String c path)
  = String (escapeChar c) (escapePathForDbus path).
Proof. by rewrite !escapePathForDbus_map. Qed.

Lemma escapePathForDbus_empty : escapePathForDbus "" = "".
Proof. reflexivity. Qed.

Lemma escapeChar_in_bracket c : std.in_bracket (escapeChar c) = true.
Proof. unfold escapeChar. by destruct (std.in_bracket c) eqn:Hc. Qed.

Lemma escapeChar_fixed c : escapeChar c = c ↔ std.in_bracket c = true.
Proof.
  split.
  - intros <-. apply escapeChar_in_bracket.
  - unfold escapeChar. by intros ->.
Qed.

Lemma escapeChar_separator c :
  Ascii.eqb (escapeChar c) "/" = Ascii.eqb c "/".
Proof.
  unfold escapeChar. destruct (std.in_bracket c) eqn:Hc; [done|].
  destruct (Ascii.eqb_spec c "/") as [->|_]; [done|]. reflexivity.
Qed.

Lemma escapePathForDbus_eq_empty path :
  escapePathForDbus path = "" ↔ path = "".
Proof.
  destruct path as [|c path]; [done|].
  by rewrite escapePathForDbus_cons.
Qed.

End escape_more.

(** X1. Escaping is idempotent: escaping an already escaped path changes
    nothing. *)
Theorem escapePathForDbus_idempotent (path : string) :
  escapePathForDbus (escapePathForDbus path) = escapePathForDbus path.
Proof.
  induction path as [|c path IH]; [done|].
  rewrite !escapePathForDbus_cons, IH. f_equal.
  apply escapeChar_fixed, escapeChar_in_bracket.
Qed.

(** X2. After [escapePathForDbus] the path holds only characters of
    [A-Za-z0-9_/]. *)
Theorem escapePathForDbus_all_in_bracket (path : string) :
  all_in_bracket (escapePathForDbus path).
Proof.
  induction path as [|c path IH]; [done|].
  rewrite escapePathForDbus_cons. split; [apply escapeChar_in_bracket|done].
Qed.

(** X3. [escapePathForDbus] leaves the path as it is exactly when every
    character of it is one of [A-Za-z0-9_/]. *)
Theorem escapePathForDbus_fixed_iff (path : string) :
  escapePathForDbus path = path ↔ all_in_bracket path.
Proof.
  induction path as [|c path IH]; [done|].
  rewrite escapePathForDbus_cons. simpl. rewrite <- IH, <- escapeChar_fixed.
  split; [by intros [= ? ?]|by intros [-> ->]].
Qed.

(** ** More on path segments *)

Section segments_more.

Implicit Types (path seg : string) (index : Z).

(** The outcome depends on the path through its segments only. *)
Lemma getNthStringFromPath_segments_ext path path' index result :
  segments path = segments path' →
  getNthStringFromPath path index result
  = getNthStringFromPath path' index result.
Proof.
  intros Hseg. destruct (Z.ltb_spec index 0) as [Hneg|Hpos].
  - unfold getNthStringFromPath.
    by destruct (Z.ltb_spec index 0) as [_|?]; [|lia].
  - by rewrite !getNthStringFromPath_lookup, Hseg by done.
Qed.

Lemma getNthStringFromPath_true_iff path index result :
  (getNthStringFromPath path index result).1 = true
  ↔ (0 ≤ index)%Z ∧ (Z.to_nat index < length (segments path))%nat.
Proof.
  destruct (Z.ltb_spec index 0) as [Hneg|Hpos].
  - unfold getNthStringFromPath.
    destruct (Z.ltb_spec index 0) as [_|?]; [|lia]. simpl.
    split; [done|lia].
  - rewrite getNthStringFromPath_lookup by done.
    destruct (segments path !! Z.to_nat index) as [seg|] eqn:Hseg; simpl.
    + apply lookup_lt_Some in Hseg. split; [done|]. by intros _.
    + apply lookup_ge_None in Hseg. split; [done|lia].
Qed.

Lemma split_at_slash_not_nil s : split_at_slash s ≠ [].
Proof.
  induction s as [|c s IH]; simpl; [done|].
  destruct (Ascii.eqb c "/"); [done|].
  by destruct (split_at_slash s).
Qed.

Lemma split_at_slash_trailing s :
  split_at_slash (s +:+ "/") = split_at_slash s ++ [""].
Proof.
  induction s as [|c s IH]; [done|].
  rewrite append_cons. simpl. rewrite IH.
  destruct (Ascii.eqb c "/"); [done|].
  pose proof (split_at_slash_not_nil s).
  by destruct (split_at_slash s).
Qed.

Lemma segments_leading_slash path : segments ("/" +:+ path) = segments path.
Proof. reflexivity. Qed.

Lemma segments_trailing_slash path : segments (path +:+ "/") = segments path.
Proof.
  unfold segments. rewrite split_at_slash_trailing, filter_app.
  rewrite (filter_cons_False _ "") by (intros ?; done).
  by rewrite filter_nil, app_nil_r.
Qed.

Lemma segments_slashes n : segments (slashes n) = [].
Proof.
  induction n as [|n IH]; [done|].
  change (slashes (S n)) with ("/" +:+ slashes n).
  by rewrite segments_leading_slash.
Qed.

Lemma split_at_slash_escape path :
  split_at_slash (escapePathForDbus path)
  = map escapePathForDbus (split_at_slash path).
Proof.
  induction path as [|c path IH]; [done|].
  rewrite escapePathForDbus_cons. simpl.
  rewrite escapeChar_separator, IH.
  destruct (Ascii.eqb c "/"); [done|].
  pose proof (split_at_slash_not_nil path).
  destruct (split_at_slash path) as [|piece pieces]; [done|].
  simpl. by rewrite escapePathForDbus_cons.
Qed.

Lemma segments_escape path :
  segments (escapePathForDbus path)
  = map escapePathForDbus (segments path).
Proof.
  unfold segments. rewrite split_at_slash_escape.
  induction (split_at_slash path) as [|piece pieces IH]; [done|].
  simpl. destruct (decide (piece = "")) as [->|Hne].
  - by rewrite !(filter_cons_False _ "") by (intros ?; done).
  - rewrite !filter_cons_True, IH; [done..|].
    by rewrite escapePathForDbus_eq_empty.
Qed.

(** A character of [A-Za-z0-9_/] is no period. *)
Lemma in_bracket_not_period c :
  std.in_bracket c = true → Ascii.eqb c "." = false.
Proof.
  intros Hc. destruct (Ascii.eqb_spec c ".") as [->|_]; [|done].
  discriminate Hc.
Qed.

Lemma rfind_period_in_bracket seg :
  all_in_bracket seg → std.rfind "." seg = None.
Proof.
  induction seg as [|c seg IH]; [done|]. intros [Hc Hseg]. simpl.
  by rewrite IH, in_bracket_not_period.
Qed.

Lemma stem_of_filename_no_period seg :
  std.rfind "." seg = None → std.stem_of_filename seg = seg.
Proof.
  intros Hfind. unfold std.stem_of_filename.
  case_bool_decide; [done|]. by rewrite Hfind.
Qed.

Lemma prefix_refl s : String.prefix s s = true.
Proof.
  induction s as [|c s IH]; [done|]. simpl.
  by destruct (ascii_dec c c).
Qed.

Lemma prefix_substring n : ∀ s, String.prefix (String.substring 0 n s) s = true.
Proof.
  induction n as [|n IH]; intros [|c s]; simpl; try done.
  destruct (ascii_dec c c); [apply IH|done].
Qed.

Lemma substring_succ_not_empty n c s :
  String.substring 0 (S n) (String c s) ≠ "".
Proof. done. Qed.

Lemma stem_of_filename_prefix seg :
  String.prefix (std.stem_of_filename seg) seg = true.
Proof.
  unfold std.stem_of_filename. case_bool_decide; [apply prefix_refl|].
  destruct (std.rfind "." seg) as [[|pos]|];
    [apply prefix_refl|apply prefix_substring|apply prefix_refl].
Qed.

Lemma stem_of_filename_not_empty seg :
  seg ≠ "" → std.stem_of_filename seg ≠ "".
Proof.
  intros Hne. unfold std.stem_of_filename. case_bool_decide; [done|].
  destruct (std.rfind "." seg) as [[|pos]|]; [done| |done].
  destruct seg; [done|]. apply substring_succ_not_empty.
Qed.

Lemma slash_free_prefix s : ∀ seg,
  String.prefix s seg = true → slash_free seg → slash_free s.
Proof.
  induction s as [|c s IH]; intros [|c' seg]; simpl; try done.
  destruct (ascii_dec c c') as [->|]; [|done].
  intros Hpre [Hc Hseg]. split; [done|]. by eapply IH.
Qed.

End segments_more.

(** X4. Escaping keeps the segments apart: the escaped path has as many
    segments as the path, so [getNthStringFromPath] succeeds on the one
    exactly when it succeeds on the other. *)
Theorem escapePathForDbus_keeps_segment_count (path : string) (index : Z)
    (result : string) :
  length (segments (escapePathForDbus path)) = length (segments path)
  ∧ (getNthStringFromPath (escapePathForDbus path) index result).1
    = (getNthStringFromPath path index result).1.
Proof.
  assert (length (segments (escapePathForDbus path))
          = length (segments path)) as Hlen
    by (by rewrite segments_escape, length_map).
  split; [done|].
  pose proof (getNthStringFromPath_true_iff (escapePathForDbus path) index
                result) as Hesc.
  pose proof (getNthStringFromPath_true_iff path index result) as Hraw.
  rewrite Hlen in Hesc. rewrite <- Hraw in Hesc.
  destruct (getNthStringFromPath (escapePathForDbus path) index result).1,
    (getNthStringFromPath path index result).1; try done.
  - symmetry. by apply Hesc.
  - by apply Hesc.
Qed.

(** X5. A segment that holds no period is returned as it is: the stem
    changes nothing. *)
Theorem getNthStringFromPath_no_period (path : string) (index : Z)
    (result seg : string) :
  (0 ≤ index)%Z →
  segments path !! Z.to_nat index = Some seg →
  std.rfind "." seg = None →
  getNthStringFromPath path index result = (true, seg).
Proof.
  intros Hidx Hseg Hfind.
  by rewrite getNthStringFromPath_lookup, Hseg, stem_of_filename_no_period.
Qed.

Lemma getNthStringFromPath_no_period_witness :
  getNthStringFromPath "/xyz/openbmc_project/state/host0" 3 "" = (true, "host0").
Proof.
  apply (getNthStringFromPath_no_period
           "/xyz/openbmc_project/state/host0" 3 "" "host0").
  - lia.
  - reflexivity.
  - reflexivity.
Defined.

(** X6. On an escaped path the stem never cuts anything: for an index
    within range [getNthStringFromPath] returns the segment itself. *)
Theorem getNthStringFromPath_of_escaped (path : string) (index : Z)
    (result : string) :
  (0 ≤ index)%Z →
  (Z.to_nat index < length (segments (escapePathForDbus path)))%nat →
  getNthStringFromPath (escapePathForDbus path) index result
  = (true, nth (Z.to_nat index) (segments (escapePathForDbus path)) "").
Proof.
  intros Hidx Hlt.
  destruct (lookup_lt_is_Some_2 _ _ Hlt) as [seg Hseg].
  rewrite (nth_lookup_Some _ _ _ _ Hseg).
  apply getNthStringFromPath_no_period; [done..|].
  apply rfind_period_in_bracket.
  rewrite segments_escape in Hseg.
  apply list_lookup_fmap_Some in Hseg as (seg' & -> & _).
  apply escapePathForDbus_all_in_bracket.
Qed.

Lemma getNthStringFromPath_of_escaped_witness :
  getNthStringFromPath (escapePathForDbus "/sensors/fan 0.rpm/value") 1 ""
  = (true, nth (Z.to_nat 1)
             (segments (escapePathForDbus "/sensors/fan 0.rpm/value")) "").
Proof.
  apply (getNthStringFromPath_of_escaped "/sensors/fan 0.rpm/value" 1 "").
  - lia.
  - vm_compute. lia.
Defined.

(** X7. When [getNthStringFromPath] succeeds, the string it stores is not
    empty, holds no ['/'], and is a prefix of the segment at the index. *)
Theorem getNthStringFromPath_result_shape (path : string) (index : Z)
    (result found : string) :
  getNthStringFromPath path index result = (true, found) →
  found ≠ ""
  ∧ slash_free found
  ∧ ∃ seg, segments path !! Z.to_nat index = Some seg
           ∧ String.prefix found seg = true.
Proof.
  intros Hget.
  assert ((0 ≤ index)%Z) as Hidx.
  { apply (getNthStringFromPath_true_iff path index result).
    by rewrite Hget. }
  rewrite getNthStringFromPath_lookup in Hget by done.
  destruct (segments path !! Z.to_nat index) as [seg|] eqn:Hseg; [|done].
  injection Hget as <-.
  pose proof (list_elem_of_lookup_2 _ _ _ Hseg) as Hin.
  apply segments_free in Hin as [Hfree Hne].
  split; [by apply stem_of_filename_not_empty|].
  split; [|exists seg; split; [done|apply stem_of_filename_prefix]].
  eapply slash_free_prefix; [apply stem_of_filename_prefix|done].
Qed.

Lemma getNthStringFromPath_result_shape_witness :
  "xyz.openbmc_project" ≠ ""
  ∧ slash_free "xyz.openbmc_project"
  ∧ ∃ seg,
      segments "/org/xyz.openbmc_project.State/host0" !! Z.to_nat 1 = Some seg
      ∧ String.prefix "xyz.openbmc_project" seg = true.
Proof.
  apply (getNthStringFromPath_result_shape
           "/org/xyz.openbmc_project.State/host0" 1 "" "xyz.openbmc_project").
  reflexivity.
Defined.

(** X8. Success is downward closed: when [getNthStringFromPath] succeeds
    at an index it succeeds at every smaller index from [0] on. *)
Theorem getNthStringFromPath_smaller_index (path : string) (index index' : Z)
    (result result' : string) :
  (getNthStringFromPath path index result).1 = true →
  (0 ≤ index' ≤ index)%Z →
  (getNthStringFromPath path index' result').1 = true.
Proof.
  rewrite !getNthStringFromPath_true_iff. intros [Hidx Hlt] [Hlo Hhi].
  split; [done|lia].
Qed.

Lemma getNthStringFromPath_smaller_index_witness :
  (getNthStringFromPath "/xyz/openbmc_project/state/host0" 1 "").1 = true.
Proof.
  apply (getNthStringFromPath_smaller_index
           "/xyz/openbmc_project/state/host0" 3 1 "" "").
  - reflexivity.
  - lia.
Defined.

(** X9. A separator in front of the path or behind it changes nothing:
    [getNthStringFromPath] gives the same flag and the same string. *)
Theorem getNthStringFromPath_ignores_outer_slash (path : string) (index : Z)
    (result : string) :
  getNthStringFromPath ("/" +:+ path) index result
  = getNthStringFromPath path index result
  ∧ getNthStringFromPath (path +:+ "/") index result
    = getNthStringFromPath path index result.
Proof.
  split; apply getNthStringFromPath_segments_ext.
  - apply segments_leading_slash.
  - apply segments_trailing_slash.
Qed.

(** X10. A path without any filename, the empty path or separators only,
    has no segment: [getNthStringFromPath] fails at every index and keeps
    [result]. *)
Theorem getNthStringFromPath_of_slashes (n : nat) (index : Z)
    (result : string) :
  getNthStringFromPath (slashes n) index result = (false, result).
Proof.
  destruct (Z.ltb_spec index 0) as [Hneg|Hpos].
  - unfold getNthStringFromPath.
    by destruct (Z.ltb_spec index 0) as [_|?]; [|lia].
  - by rewrite getNthStringFromPath_lookup, segments_slashes by done.
Qed.

(** ** More on the association pipeline *)

Section pipeline_more.

Lemma sort_of_permutation v v' : v ≡ₚ v' → std.sort v = std.sort v'.
Proof.
  intros Hperm. apply sort_unique.
  - eapply Sorted_weaken; [|apply sort_sorted].
    intros ??. by apply string_le_not_after.
  - by rewrite sort_perm.
Qed.

Lemma length_merged endpoints subtreePaths :
  (length (merged endpoints subtreePaths) ≤ length subtreePaths)%nat.
Proof.
  unfold merged. rewrite sort_perm. apply length_filter.
Qed.

Lemma merged_no_endpoints subtreePaths : merged [] subtreePaths = [].
Proof.
  unfold merged.
  match goal with |- std.sort ?l = _ => assert (l = []) as ->; [|done] end.
  induction subtreePaths as [|p subtreePaths IH]; [done|].
  rewrite filter_cons_False; [done|set_solver].
Qed.

Lemma merged_proper endpoints endpoints' subtreePaths subtreePaths' :
  (∀ p, p ∈ endpoints ↔ p ∈ endpoints') →
  subtreePaths ≡ₚ subtreePaths' →
  merged endpoints subtreePaths = merged endpoints' subtreePaths'.
Proof.
  intros Hset Hperm. unfold merged. apply sort_of_permutation.
  assert ((list_to_set endpoints : gset string) = list_to_set endpoints')
    as Heq.
  { apply set_eq. intros p. rewrite !elem_of_list_to_set. apply Hset. }
  by rewrite Heq, Hperm.
Qed.

(** Every execution of [validateAssociatedSubTreePaths]. *)
Lemma exec_validateAssociatedSubTreePaths associatedPath endpoints path depth
    interfaces trace r :
  exec (validateAssociatedSubTreePaths associatedPath endpoints path depth
          interfaces deliver) trace r →
  ∃ ec (subtreePaths : list string),
    trace = [Issue (subTreePathsRequest path depth interfaces);
             Reply (subTreePathsRequest path depth interfaces) ec sig_as
               subtreePaths]
    ∧ r = (ec, if failed ec || bool_decide (subtreePaths = [])
               then [] else merged endpoints subtreePaths).
Proof.
  intros Hexec. apply exec_inv in Hexec.
  destruct Hexec as (ec & subtreePaths & trace' & -> & Hexec).
  exists ec, subtreePaths.
  unfold MapperEndPoints, MapperGetSubTreePathsResponse in *.
  change (unpacked sig_as) with (list string) in *.
  rewrite collectAssociated_filter in Hexec.
  destruct (failed ec || bool_decide (subtreePaths = []));
    apply exec_inv in Hexec; by destruct Hexec as [-> ->].
Qed.

End pipeline_more.

(** X11. An execution of [getAssociatedSubTreePaths] puts one or two
    requests on the bus and never repeats one: the endpoints read of the
    association first, and after its reply at most one [GetSubTreePaths]
    call, which carries the caller's path, depth and interfaces as they
    were given. *)
Theorem pipeline_issues_at_most_two_requests
    (associatedPath path : string) (depth : Z) (interfaces : list string)
    (trace : list event)
    (r : error_code * MapperGetSubTreePathsResponse) :
  exec (getAssociatedSubTreePaths associatedPath path depth interfaces
          deliver) trace r →
  ∃ ec endpoints,
    trace = [Issue (endpointsRequest associatedPath);
             Reply (endpointsRequest associatedPath) ec sig_as endpoints]
    ∨ ∃ ec' subtreePaths,
        trace = [Issue (endpointsRequest associatedPath);
                 Reply (endpointsRequest associatedPath) ec sig_as endpoints;
                 Issue (method_call "xyz.openbmc_project.ObjectMapper"
                          "/xyz/openbmc_project/object_mapper"
                          "xyz.openbmc_project.ObjectMapper" "GetSubTreePaths"
                          [arg_s path; arg_i depth; arg_as interfaces]);
                 Reply (subTreePathsRequest path depth interfaces) ec' sig_as
                   subtreePaths].
Proof.
  intros Hexec.
  apply exec_getAssociatedSubTreePaths in Hexec as (ec & endpoints & Hexec).
  exists ec, endpoints. simpl in Hexec.
  destruct (failed ec || bool_decide (endpoints = [])).
  - left. by destruct Hexec.
  - right. destruct Hexec as (ec' & subtreePaths & -> & _). by eauto.
Qed.

Lemma pipeline_issues_at_most_two_requests_witness :
  ∃ ec endpoints,
    (run (fakeBus "/assoc" (0, ["/inv/sys/fan0"]) (7, []))
       (getAssociatedSubTreePaths "/assoc" "/inv" 2 ["iface"] deliver)).1
    = [Issue (endpointsRequest "/assoc");
       Reply (endpointsRequest "/assoc") ec sig_as endpoints]
    ∨ ∃ ec' subtreePaths,
        (run (fakeBus "/assoc" (0, ["/inv/sys/fan0"]) (7, []))
           (getAssociatedSubTreePaths "/assoc" "/inv" 2 ["iface"] deliver)).1
        = [Issue (endpointsRequest "/assoc");
           Reply (endpointsRequest "/assoc") ec sig_as endpoints;
           Issue (method_call "xyz.openbmc_project.ObjectMapper"
                    "/xyz/openbmc_project/object_mapper"
                    "xyz.openbmc_project.ObjectMapper" "GetSubTreePaths"
                    [arg_s "/inv"; arg_i 2; arg_as ["iface"]]);
           Reply (subTreePathsRequest "/inv" 2 ["iface"]) ec' sig_as
             subtreePaths].
Proof.
  apply (pipeline_issues_at_most_two_requests "/assoc" "/inv" 2 ["iface"] _
           (run (fakeBus "/assoc" (0, ["/inv/sys/fan0"]) (7, []))
              (getAssociatedSubTreePaths "/assoc" "/inv" 2 ["iface"]
                 deliver)).2).
  apply run_exec.
Defined.

(** X12. The status handed to the callback is the error code of the last
    reply the execution observed; the pipeline makes up no code of its
    own. *)
Theorem pipeline_status_is_last_reply
    (associatedPath path : string) (depth : Z) (interfaces : list string)
    (trace : list event)
    (r : error_code * MapperGetSubTreePathsResponse) :
  exec (getAssociatedSubTreePaths associatedPath path depth interfaces
          deliver) trace r →
  ∃ req value, List.last trace (Issue req) = Reply req r.1 sig_as value.
Proof.
  intros Hexec.
  apply exec_getAssociatedSubTreePaths in Hexec as (ec & endpoints & Hexec).
  simpl in Hexec.
  destruct (failed ec || bool_decide (endpoints = [])).
  - destruct Hexec as [-> ->]. by eexists _, _.
  - destruct Hexec as (ec' & subtreePaths & -> & ->). by eexists _, _.
Qed.

Lemma pipeline_status_is_last_reply_witness :
  ∃ req value,
    List.last
      (run (fakeBus "/assoc" (0, ["/inv/sys/fan0"]) (7, []))
         (getAssociatedSubTreePaths "/assoc" "/inv" 0 [] deliver)).1
      (Issue req)
    = Reply req
        (run (fakeBus "/assoc" (0, ["/inv/sys/fan0"]) (7, []))
           (getAssociatedSubTreePaths "/assoc" "/inv" 0 [] deliver)).2.1
        sig_as value.
Proof.
  apply (pipeline_status_is_last_reply "/assoc" "/inv" 0 []).
  apply run_exec.
Defined.



(** X14. What is delivered does not depend on how the replies are
    arranged: two buses whose endpoints replies list the same paths, in
    any order and however often, and whose subtree replies are
    rearrangements of each other, with the same statuses, deliver the same
    status and the same sequence. *)
Theorem pipeline_insensitive_to_reply_order (bus1 bus2 : Bus)
    (associatedPath path : string) (depth : Z) (interfaces : list string)
    (ec ec' : error_code) (endpoints1 endpoints2 : MapperEndPoints)
    (subtreePaths1 subtreePaths2 : MapperGetSubTreePathsResponse) :
  bus1 sig_as (endpointsRequest associatedPath) = (ec, endpoints1) →
  bus2 sig_as (endpointsRequest associatedPath) = (ec, endpoints2) →
  (∀ p, p ∈ endpoints1 ↔ p ∈ endpoints2) →
  bus1 sig_as (subTreePathsRequest path depth interfaces)
    = (ec', subtreePaths1) →
  bus2 sig_as (subTreePathsRequest path depth interfaces)
    = (ec', subtreePaths2) →
  subtreePaths1 ≡ₚ subtreePaths2 →
  (run bus1 (getAssociatedSubTreePaths associatedPath path depth interfaces
               deliver)).2
  = (run bus2 (getAssociatedSubTreePaths associatedPath path depth interfaces
                 deliver)).2.
Proof.
  intros He1 He2 Hset Hs1 Hs2 Hperm.
  rewrite !run_getAssociatedSubTreePaths. simpl.
  rewrite He1, He2, Hs1, Hs2.
  unfold MapperEndPoints, MapperGetSubTreePathsResponse in *.
  assert (bool_decide (endpoints1 = []) = bool_decide (endpoints2 = []))
    as ->.
  { apply bool_decide_ext. split; intros ->.
    - destruct endpoints2 as [|p ?]; [done|]. exfalso.
      apply (proj1 (elem_of_nil p)), (proj2 (Hset p)). by left.
    - destruct endpoints1 as [|p ?]; [done|]. exfalso.
      apply (proj1 (elem_of_nil p)), (proj1 (Hset p)). by left. }
  assert (bool_decide (subtreePaths1 = []) = bool_decide (subtreePaths2 = []))
    as ->.
  { apply bool_decide_ext. split; intros ->.
    - by apply Permutation_nil_l in Hperm.
    - by apply Permutation_nil_r in Hperm. }
  rewrite (merged_proper endpoints1 endpoints2 subtreePaths1 subtreePaths2)
    by done.
  destruct (failed ec || bool_decide (endpoints2 = [])); [done|].
  done.
Qed.

Lemma pipeline_insensitive_to_reply_order_witness :
  (run (fakeBus "/assoc" (0, ["/b"; "/a"; "/b"]) (0, ["/c"; "/b"; "/a"]))
     (getAssociatedSubTreePaths "/assoc" "/" 0 [] deliver)).2
  = (run (fakeBus "/assoc" (0, ["/a"; "/b"]) (0, ["/a"; "/c"; "/b"]))
       (getAssociatedSubTreePaths "/assoc" "/" 0 [] deliver)).2.
Proof.
  apply (pipeline_insensitive_to_reply_order
           (fakeBus "/assoc" (0, ["/b"; "/a"; "/b"]) (0, ["/c"; "/b"; "/a"]))
           (fakeBus "/assoc" (0, ["/a"; "/b"]) (0, ["/a"; "/c"; "/b"]))
           "/assoc" "/" 0 [] 0 0
           ["/b"; "/a"; "/b"] ["/a"; "/b"]
           ["/c"; "/b"; "/a"] ["/a"; "/c"; "/b"]).
  - reflexivity.
  - reflexivity.
  - intros p. rewrite !elem_of_cons, !elem_of_nil. tauto.
  - reflexivity.
  - reflexivity.
  - apply (Permutation_trans (l' := ["/c"; "/a"; "/b"])).
    + apply perm_skip. apply perm_swap.
    + apply perm_swap.
Defined.

(** X15. [validateAssociatedSubTreePaths] issues its one [GetSubTreePaths]
    call whatever endpoints it is given, also none; the status it delivers
    is the reply's, it never delivers more paths than the reply holds, and
    with no endpoints it delivers none. *)
Theorem validateAssociatedSubTreePaths_execution
    (associatedPath : string) (endpoints : MapperEndPoints)
    (path : string) (depth : Z) (interfaces : list string)
    (trace : list event)
    (r : error_code * MapperGetSubTreePathsResponse) :
  exec (validateAssociatedSubTreePaths associatedPath endpoints path depth
          interfaces deliver) trace r →
  ∃ ec subtreePaths,
    trace = [Issue (subTreePathsRequest path depth interfaces);
             Reply (subTreePathsRequest path depth interfaces) ec sig_as
               subtreePaths]
    ∧ r.1 = ec
    ∧ (length r.2 ≤ length subtreePaths)%nat
    ∧ (endpoints = [] → r.2 = []).
Proof.
  intros Hexec.
  apply exec_validateAssociatedSubTreePaths in Hexec
    as (ec & subtreePaths & -> & ->).
  exists ec, subtreePaths. split; [done|]. split; [done|]. simpl.
  destruct (failed ec || bool_decide (subtreePaths = [])).
  - split; [simpl; lia|done].
  - split; [apply length_merged|]. intros ->. apply merged_no_endpoints.
Qed.

Lemma validateAssociatedSubTreePaths_execution_witness :
  ∃ ec subtreePaths,
    (run (fakeBus "/assoc" (0, []) (0, ["/inv/sys/fan0"]))
       (validateAssociatedSubTreePaths "/assoc" [] "/inv" 0 [] deliver)).1
    = [Issue (subTreePathsRequest "/inv" 0 []);
       Reply (subTreePathsRequest "/inv" 0 []) ec sig_as subtreePaths]
    ∧ (run (fakeBus "/assoc" (0, []) (0, ["/inv/sys/fan0"]))
         (validateAssociatedSubTreePaths "/assoc" [] "/inv" 0 [] deliver)).2.1
      = ec
    ∧ (length
         (run (fakeBus "/assoc" (0%Z, []) (0%Z, ["/inv/sys/fan0"]))
            (validateAssociatedSubTreePaths "/assoc" [] "/inv" 0%Z []
               deliver)).2.2
       ≤ length subtreePaths)%nat
    ∧ (([] : MapperEndPoints) = [] →
       (run (fakeBus "/assoc" (0, []) (0, ["/inv/sys/fan0"]))
          (validateAssociatedSubTreePaths "/assoc" [] "/inv" 0 []
             deliver)).2.2
       = []).
Proof.
  apply (validateAssociatedSubTreePaths_execution "/assoc" [] "/inv" 0 []).
  apply run_exec.
Defined.

(** X16. [getSubTree] puts one [GetSubTree] call on the bus, with the
    path, the depth and the interfaces as its arguments, unchanged, and
    hands the error code and the subtree of the reply to its callback as
    they came. *)
Theorem getSubTree_forwards (path : string) (depth : Z)
    (interfaces : list string) (trace : list event)
    (r : error_code * MapperGetSubTreeResponse) :
  exec (getSubTree path depth interfaces deliverSubTree) trace r →
  ∃ ec subtree,
    trace = [Issue (method_call "xyz.openbmc_project.ObjectMapper"
                      "/xyz/openbmc_project/object_mapper"
                      "xyz.openbmc_project.ObjectMapper" "GetSubTree"
                      [arg_s path; arg_i depth; arg_as interfaces]);
             Reply (method_call "xyz.openbmc_project.ObjectMapper"
                      "/xyz/openbmc_project/object_mapper"
                      "xyz.openbmc_project.ObjectMapper" "GetSubTree"
                      [arg_s path; arg_i depth; arg_as interfaces])
               ec sig_a_s_a_sas subtree]
    ∧ r = (ec, subtree).
Proof.
  intros Hexec. apply exec_inv in Hexec.
  destruct Hexec as (ec & subtree & trace' & -> & Hexec).
  apply exec_inv in Hexec. destruct Hexec as [-> ->].
  by exists ec, subtree.
Qed.

Lemma getSubTree_forwards_witness :
  ∃ ec subtree,
    (run (fakeBus "/assoc" (0, []) (0, []))
       (getSubTree "/inv" 1 ["iface"] deliverSubTree)).1
    = [Issue (method_call "xyz.openbmc_project.ObjectMapper"
                "/xyz/openbmc_project/object_mapper"
                "xyz.openbmc_project.ObjectMapper" "GetSubTree"
                [arg_s "/inv"; arg_i 1; arg_as ["iface"]]);
       Reply (method_call "xyz.openbmc_project.ObjectMapper"
                "/xyz/openbmc_project/object_mapper"
                "xyz.openbmc_project.ObjectMapper" "GetSubTree"
                [arg_s "/inv"; arg_i 1; arg_as ["iface"]])
         ec sig_a_s_a_sas subtree]
    ∧ (run (fakeBus "/assoc" (0, []) (0, []))
         (getSubTree "/inv" 1 ["iface"] deliverSubTree)).2
      = (ec, subtree).
Proof.
  apply (getSubTree_forwards "/inv" 1 ["iface"]).
  apply run_exec.
Defined.
